(** * Broken-links synthetic: link utilities and navigation

    A shallow embedding of [link_utils] and [navigation_func] of the
    synthetics-sdk-broken-links package, with the wire types they use
    from synthetics-sdk-api ([synthetic_response.proto]).

    Conventions.  JavaScript numbers that hold integers are [Z].  An optional
    field ([x?: T], or a value that may be [undefined]/[null]) is an [option].
    Text that is only carried around is a [string]; the one function that
    looks inside its text, [sanitizeObjectName], works on UTF-16 code units.
    Whatever the code obtains from its surroundings (the browser page, the
    clock, [Math.random]) is supplied by the caller of the model. *)

From stdpp Require Import base option list gmap strings pretty sorting.
From Stdlib Require Import ZArith QArith Lia.
From Equations Require Import Equations.

Local Open Scope Z_scope.

(** ** Wire types (synthetic_response.proto) *)

(** [ResponseStatusCode.StatusClass]; [StatusClass_value] is the enum's
    number. *)
Inductive ResponseStatusCode_StatusClass :=
| STATUS_CLASS_UNSPECIFIED
| STATUS_CLASS_1XX
| STATUS_CLASS_2XX
| STATUS_CLASS_3XX
| STATUS_CLASS_4XX
| STATUS_CLASS_5XX
| STATUS_CLASS_ANY.

Definition StatusClass_value (c : ResponseStatusCode_StatusClass) : Z :=
  match c with
  | STATUS_CLASS_UNSPECIFIED => 0
  | STATUS_CLASS_1XX => 100
  | STATUS_CLASS_2XX => 200
  | STATUS_CLASS_3XX => 300
  | STATUS_CLASS_4XX => 400
  | STATUS_CLASS_5XX => 500
  | STATUS_CLASS_ANY => 1000
  end.

(** [oneof status_code { status_value; status_class }]: on the TypeScript
    side both members are optional properties of one object. *)
Record ResponseStatusCode := {
  status_value : option Z;
  status_class : option ResponseStatusCode_StatusClass;
}.

Record BaseError := {
  error_type : string;
  error_message : string;
}.

Inductive LinkOrder :=
| LINK_ORDER_UNSPECIFIED
| FIRST_N
| RANDOM.

Inductive CaptureCondition :=
| NONE
| FAILING
| ALL.

Record ScreenshotOptions := {
  storage_location : string;
  capture_condition : CaptureCondition;
}.

Record PerLinkOption := {
  plo_expected_status_code : option ResponseStatusCode;
  plo_link_timeout_millis : option Z;
}.

(** [BrokenLinksResultV1.BrokenLinkCheckerOptions].  The fields the code
    reads with a non-null assertion ([max_retries!], [link_timeout_millis!],
    [screenshot_options!]) are plain values here. *)
Record BrokenLinkCheckerOptions := {
  origin_uri : string;
  link_limit : Z;
  link_order : LinkOrder;
  link_timeout_millis : Z;
  max_retries : Z;
  per_link_options : gmap string PerLinkOption;
  total_synthetic_timeout_millis : Z;
  screenshot_options : ScreenshotOptions;
}.

Record ScreenshotOutput := {
  screenshot_file : string;
  screenshot_error : option BaseError;
}.

(** [BrokenLinksResultV1.SyntheticLinkResult].  [status_code = None] stands
    for an absent code ([undefined] or [null]).  The two times are declared
    as strings, but [checkLink] copies what [navigate] returns, which is
    [undefined] when no fetch was made: [None] stands for that. *)
Record SyntheticLinkResult := {
  link_passed : option bool;
  expected_status_code : option ResponseStatusCode;
  source_uri : string;
  target_uri : string;
  anchor_text : string;
  html_element : string;
  status_code : option Z;
  link_error_type : string;
  link_error_message : string;
  link_start_time : option string;
  link_end_time : option string;
  is_origin : option bool;
  screenshot_output : ScreenshotOutput;
}.

Record BrokenLinksResultV1 := {
  link_count : Z;
  passing_link_count : Z;
  failing_link_count : Z;
  unreachable_count : Z;
  status2xx_count : Z;
  status3xx_count : Z;
  status4xx_count : Z;
  status5xx_count : Z;
  options : option BrokenLinkCheckerOptions;
  origin_link_result : option SyntheticLinkResult;
  followed_link_results : list SyntheticLinkResult;
  execution_data_storage_path : string;
  errors : list BaseError;
}.

(** [LinkIntermediate] of link_utils. *)
Record LinkIntermediate := {
  li_target_uri : string;
  li_anchor_text : string;
  li_html_element : string;
}.

(** ** Status matcher: [checkStatusPassing] *)

(** [expected] may itself be missing: every access is [expected?.field]. *)
Definition checkStatusPassing
    (expected : option ResponseStatusCode) (actual : Z) : bool :=
  match expected ≫= status_value with
  | Some v => v =? actual
  | None =>
    match expected ≫= status_class with
    | Some STATUS_CLASS_1XX => (100 <=? actual) && (actual <=? 199)
    | Some STATUS_CLASS_2XX => (200 <=? actual) && (actual <=? 299)
    | Some STATUS_CLASS_3XX => (300 <=? actual) && (actual <=? 399)
    | Some STATUS_CLASS_4XX => (400 <=? actual) && (actual <=? 499)
    | Some STATUS_CLASS_5XX => (500 <=? actual) && (actual <=? 599)
    | _ => false
    end
  end.

(** ** Result aggregator: [parseFollowedLinks] *)

Module Report.

(** The empty report the function starts from. *)
Definition initial : BrokenLinksResultV1 :=
  {| link_count := 0; passing_link_count := 0; failing_link_count := 0;
     unreachable_count := 0; status2xx_count := 0; status3xx_count := 0;
     status4xx_count := 0; status5xx_count := 0;
     options := None; origin_link_result := None;
     followed_link_results := []; execution_data_storage_path := "";
     errors := [] |}.

(** Field assignments [r.field = v]. *)
Definition set_link_count (v : Z) (r : BrokenLinksResultV1) :=
  {| link_count := v; passing_link_count := passing_link_count r;
     failing_link_count := failing_link_count r;
     unreachable_count := unreachable_count r;
     status2xx_count := status2xx_count r; status3xx_count := status3xx_count r;
     status4xx_count := status4xx_count r; status5xx_count := status5xx_count r;
     options := options r; origin_link_result := origin_link_result r;
     followed_link_results := followed_link_results r;
     execution_data_storage_path := execution_data_storage_path r;
     errors := errors r |}.

Definition set_passing_link_count (v : Z) (r : BrokenLinksResultV1) :=
  {| link_count := link_count r; passing_link_count := v;
     failing_link_count := failing_link_count r;
     unreachable_count := unreachable_count r;
     status2xx_count := status2xx_count r; status3xx_count := status3xx_count r;
     status4xx_count := status4xx_count r; status5xx_count := status5xx_count r;
     options := options r; origin_link_result := origin_link_result r;
     followed_link_results := followed_link_results r;
     execution_data_storage_path := execution_data_storage_path r;
     errors := errors r |}.

Definition set_failing_link_count (v : Z) (r : BrokenLinksResultV1) :=
  {| link_count := link_count r; passing_link_count := passing_link_count r;
     failing_link_count := v;
     unreachable_count := unreachable_count r;
     status2xx_count := status2xx_count r; status3xx_count := status3xx_count r;
     status4xx_count := status4xx_count r; status5xx_count := status5xx_count r;
     options := options r; origin_link_result := origin_link_result r;
     followed_link_results := followed_link_results r;
     execution_data_storage_path := execution_data_storage_path r;
     errors := errors r |}.

Definition set_unreachable_count (v : Z) (r : BrokenLinksResultV1) :=
  {| link_count := link_count r; passing_link_count := passing_link_count r;
     failing_link_count := failing_link_count r;
     unreachable_count := v;
     status2xx_count := status2xx_count r; status3xx_count := status3xx_count r;
     status4xx_count := status4xx_count r; status5xx_count := status5xx_count r;
     options := options r; origin_link_result := origin_link_result r;
     followed_link_results := followed_link_results r;
     execution_data_storage_path := execution_data_storage_path r;
     errors := errors r |}.

Definition set_status2xx_count (v : Z) (r : BrokenLinksResultV1) :=
  {| link_count := link_count r; passing_link_count := passing_link_count r;
     failing_link_count := failing_link_count r;
     unreachable_count := unreachable_count r;
     status2xx_count := v; status3xx_count := status3xx_count r;
     status4xx_count := status4xx_count r; status5xx_count := status5xx_count r;
     options := options r; origin_link_result := origin_link_result r;
     followed_link_results := followed_link_results r;
     execution_data_storage_path := execution_data_storage_path r;
     errors := errors r |}.

Definition set_status3xx_count (v : Z) (r : BrokenLinksResultV1) :=
  {| link_count := link_count r; passing_link_count := passing_link_count r;
     failing_link_count := failing_link_count r;
     unreachable_count := unreachable_count r;
     status2xx_count := status2xx_count r; status3xx_count := v;
     status4xx_count := status4xx_count r; status5xx_count := status5xx_count r;
     options := options r; origin_link_result := origin_link_result r;
     followed_link_results := followed_link_results r;
     execution_data_storage_path := execution_data_storage_path r;
     errors := errors r |}.

Definition set_status4xx_count (v : Z) (r : BrokenLinksResultV1) :=
  {| link_count := link_count r; passing_link_count := passing_link_count r;
     failing_link_count := failing_link_count r;
     unreachable_count := unreachable_count r;
     status2xx_count := status2xx_count r; status3xx_count := status3xx_count r;
     status4xx_count := v; status5xx_count := status5xx_count r;
     options := options r; origin_link_result := origin_link_result r;
     followed_link_results := followed_link_results r;
     execution_data_storage_path := execution_data_storage_path r;
     errors := errors r |}.

Definition set_status5xx_count (v : Z) (r : BrokenLinksResultV1) :=
  {| link_count := link_count r; passing_link_count := passing_link_count r;
     failing_link_count := failing_link_count r;
     unreachable_count := unreachable_count r;
     status2xx_count := status2xx_count r; status3xx_count := status3xx_count r;
     status4xx_count := status4xx_count r; status5xx_count := v;
     options := options r; origin_link_result := origin_link_result r;
     followed_link_results := followed_link_results r;
     execution_data_storage_path := execution_data_storage_path r;
     errors := errors r |}.

Definition set_origin_link_result (v : SyntheticLinkResult)
    (r : BrokenLinksResultV1) :=
  {| link_count := link_count r; passing_link_count := passing_link_count r;
     failing_link_count := failing_link_count r;
     unreachable_count := unreachable_count r;
     status2xx_count := status2xx_count r; status3xx_count := status3xx_count r;
     status4xx_count := status4xx_count r; status5xx_count := status5xx_count r;
     options := options r; origin_link_result := Some v;
     followed_link_results := followed_link_results r;
     execution_data_storage_path := execution_data_storage_path r;
     errors := errors r |}.

(** [r.followed_link_results.push(v)] *)
Definition push_followed_link_result (v : SyntheticLinkResult)
    (r : BrokenLinksResultV1) :=
  {| link_count := link_count r; passing_link_count := passing_link_count r;
     failing_link_count := failing_link_count r;
     unreachable_count := unreachable_count r;
     status2xx_count := status2xx_count r; status3xx_count := status3xx_count r;
     status4xx_count := status4xx_count r; status5xx_count := status5xx_count r;
     options := options r; origin_link_result := origin_link_result r;
     followed_link_results := followed_link_results r ++ [v];
     execution_data_storage_path := execution_data_storage_path r;
     errors := errors r |}.

(** The three assignments [createSyntheticResult] makes in a row. *)
Definition set_options_errors_path (o : BrokenLinkCheckerOptions)
    (es : list BaseError) (p : string) (r : BrokenLinksResultV1) :=
  {| link_count := link_count r; passing_link_count := passing_link_count r;
     failing_link_count := failing_link_count r;
     unreachable_count := unreachable_count r;
     status2xx_count := status2xx_count r; status3xx_count := status3xx_count r;
     status4xx_count := status4xx_count r; status5xx_count := status5xx_count r;
     options := Some o; origin_link_result := origin_link_result r;
     followed_link_results := followed_link_results r;
     execution_data_storage_path := p;
     errors := es |}.

End Report.

(** [Math.floor(link.status_code! / 100)]: [None] when the quotient is not a
    number to compare against ([undefined / 100] is [NaN]); a [null] code
    gives [0], which the switch treats the same way. *)
Definition status_hundreds (code : option Z) : option Z :=
  (λ c, c / 100) <$> code.

(** The [switch] of the loop body. *)
Definition count_status (code : option Z) (r : BrokenLinksResultV1)
    : BrokenLinksResultV1 :=
  match status_hundreds code with
  | Some 2 => Report.set_status2xx_count (status2xx_count r + 1) r
  | Some 3 => Report.set_status3xx_count (status3xx_count r + 1) r
  | Some 4 => Report.set_status4xx_count (status4xx_count r + 1) r
  | Some 5 => Report.set_status5xx_count (status5xx_count r + 1) r
  | _ => Report.set_unreachable_count (unreachable_count r + 1) r
  end.

(** One iteration of [for (const link of followed_links)]. *)
Definition parse_link (r : BrokenLinksResultV1) (link : SyntheticLinkResult)
    : BrokenLinksResultV1 :=
  match link_passed link with
  | None => r                                   (* continue *)
  | Some passed =>
    let r1 :=
      match is_origin link with
      | Some true => Report.set_origin_link_result link r
      | _ => Report.push_followed_link_result link r
      end in
    let r2 := Report.set_link_count (link_count r1 + 1) r1 in
    let r3 :=
      if passed
      then Report.set_passing_link_count (passing_link_count r2 + 1) r2
      else Report.set_failing_link_count (failing_link_count r2 + 1) r2 in
    count_status (status_code link) r3
  end.

Definition parseFollowedLinks (followed_links : list SyntheticLinkResult)
    : BrokenLinksResultV1 :=
  foldl parse_link Report.initial followed_links.

(** ** Report assembly: [createSyntheticResult], [getGenericSyntheticResult] *)

(** [StorageParameters] of storage_func, as far as link_utils reads it:
    the bucket (by name) when there is one, and the two ids, which a caller
    may have left out. *)
Record StorageParameters := {
  bucket : option string;
  checkId : option string;
  executionId : option string;
  screenshotNumber : Z;
}.

Record GenericError := {
  ge_error_type : string;
  ge_error_message : string;
  ge_function_name : string;
  ge_file_path : string;
  ge_line : Z;
  ge_stack_trace : string;
}.

Record GenericResultV1 := {
  ok : bool;
  generic_error : GenericError;
}.

(** [SyntheticResult]: the [oneof result] is one optional property per
    member. *)
Record SyntheticResult := {
  synthetic_generic_result_v1 : option GenericResultV1;
  synthetic_broken_links_result_v1 : option BrokenLinksResultV1;
  runtime_metadata : gmap string string;
  start_time : string;
  end_time : string;
}.

Definition shouldTakeScreenshot (options : BrokenLinkCheckerOptions)
    (passed : bool) : bool :=
  match capture_condition (screenshot_options options) with
  | ALL => true
  | FAILING => negb passed
  | NONE => false
  end.

Definition endsWith (suffix s : string) : bool :=
  let n := String.length s in
  let k := String.length suffix in
  (k <=? n)%nat && String.eqb (String.substring (n - k) k s) suffix.

Section Assembly.

(** [Date.prototype.toISOString] on a time value in milliseconds, and
    [path.join] on its list of arguments. *)
Context (toISOString : Z → string) (path_join : list string → string).

Definition getStoragePathToExecution (storageParams : StorageParameters)
    (options : BrokenLinkCheckerOptions) : string :=
  let storageLocation := storage_location (screenshot_options options) in
  let writeDestination :=
    match String.index 0 "/" storageLocation with
    | Some firstSlashIndex =>
        String.substring (S firstSlashIndex)
          (String.length storageLocation - S firstSlashIndex) storageLocation
    | None => ""
    end in
  let writeDestination :=
    if negb (String.eqb writeDestination "")
       && negb (endsWith "/" writeDestination)
    then writeDestination +:+ "/" else writeDestination in
  (* path.join throws on an argument that is not a string; the catch
     block turns that into the empty path *)
  match checkId storageParams, executionId storageParams with
  | Some c, Some e => path_join [writeDestination; c; e]
  | _, _ => ""
  end.

(** [now] is the time value [new Date()] reads. *)
Definition createSyntheticResult (now : Z) (start_time : string)
    (runtime_metadata : gmap string string)
    (options : BrokenLinkCheckerOptions)
    (followed_links : list SyntheticLinkResult)
    (storageParams : StorageParameters) (errors : list BaseError)
    : SyntheticResult :=
  let path :=
    match bucket storageParams with
    | Some name =>
        "gs://" +:+ name +:+ "/"
          +:+ getStoragePathToExecution storageParams options
    | None => ""
    end in
  let broken_links_result :=
    Report.set_options_errors_path options errors path
      (parseFollowedLinks followed_links) in
  {| synthetic_generic_result_v1 := None;
     synthetic_broken_links_result_v1 := Some broken_links_result;
     runtime_metadata := runtime_metadata;
     start_time := start_time;
     end_time := toISOString now |}.

Definition getEndTime (now : Z) (startTime : string) : string :=
  let endDate := now in
  let endDate :=
    if String.eqb (toISOString endDate) startTime
    then endDate + 1   (* setMilliseconds(getMilliseconds() + 1) *)
    else endDate in
  toISOString endDate.

Definition getGenericError (genericErrorMessage : string) : GenericResultV1 :=
  {| ok := false;
     generic_error :=
       {| ge_error_type := "Error";
          ge_error_message := genericErrorMessage;
          ge_function_name := ""; ge_file_path := ""; ge_line := 0;
          ge_stack_trace := "" |} |}.

(** [metadata] is what [getRuntimeMetadata()] returns. *)
Definition getGenericSyntheticResult (now : Z)
    (metadata : gmap string string)
    (startTime genericErrorMessage : string) : SyntheticResult :=
  {| synthetic_generic_result_v1 := Some (getGenericError genericErrorMessage);
     synthetic_broken_links_result_v1 := None;
     runtime_metadata := metadata;
     start_time := startTime;
     end_time := getEndTime now startTime |}.

End Assembly.

(** ** Link selector: [shuffleAndTruncate]

    Arrays are objects: the function receives a reference, and [sort] works
    in place.  The store maps references to array contents; every array
    literal, spread, [map] and [slice] allocates a new array. *)

Inductive JsArray :=
| LinkArray (elems : list LinkIntermediate)
| KeyedArray (elems : list (LinkIntermediate * Q)).  (* of { value, sort } *)

Record Mem := {
  heap : gmap nat JsArray;
  random_calls : nat;      (* calls made to Math.random so far *)
}.

(** Computations that read and write the store and may get stuck on a
    reference that does not hold what the code expects. *)
Definition M (A : Type) : Type := Mem → option (A * Mem).

#[export] Instance M_ret : MRet M := λ A a m, Some (a, m).

#[export] Instance M_bind : MBind M := λ A B k c m,
  match c m with
  | Some (a, m') => k a m'
  | None => None
  end.

Definition alloc (a : JsArray) : M nat :=
  λ m, let r := fresh (dom (heap m)) in
       Some (r, {| heap := <[r := a]> (heap m);
                   random_calls := random_calls m |}).

Definition read_links (r : nat) : M (list LinkIntermediate) :=
  λ m, match heap m !! r with
       | Some (LinkArray elems) => Some (elems, m)
       | _ => None
       end.

Definition read_keyed (r : nat) : M (list (LinkIntermediate * Q)) :=
  λ m, match heap m !! r with
       | Some (KeyedArray elems) => Some (elems, m)
       | _ => None
       end.

Definition write (r : nat) (a : JsArray) : M unit :=
  λ m, Some (tt, {| heap := <[r := a]> (heap m);
                    random_calls := random_calls m |}).

(** [Array.prototype.slice(start, end)] on the contents: a negative index
    counts from the end, and both are clamped to the array. *)
Definition clamp_index (len : nat) (i : Z) : nat :=
  if i <? 0 then Z.to_nat (Z.max (Z.of_nat len + i) 0)
  else Z.to_nat (Z.min i (Z.of_nat len)).

Definition Array_slice {A} (start end_ : Z) (l : list A) : list A :=
  let k := clamp_index (length l) start in
  let final := clamp_index (length l) end_ in
  take (final - k) (drop k l).

(** [Array.prototype.sort] with the comparator [(a, b) => a.sort - b.sort]:
    the sort is stable, so elements with equal keys keep their order. *)
Fixpoint insert_by_sort (x : LinkIntermediate * Q)
    (l : list (LinkIntermediate * Q)) : list (LinkIntermediate * Q) :=
  match l with
  | [] => [x]
  | y :: l' =>
      if Qle_bool (snd x) (snd y) then x :: y :: l'
      else y :: insert_by_sort x l'
  end.

Definition sort_by_sort (l : list (LinkIntermediate * Q))
    : list (LinkIntermediate * Q) :=
  foldr insert_by_sort [] l.

Section Selector.

(** [Math_random n] is the number the [n]-th call of [Math.random()]
    returns (counting from 0). *)
Context (Math_random : nat → Q).

Definition random : M Q :=
  λ m, Some (Math_random (random_calls m),
             {| heap := heap m; random_calls := S (random_calls m) |}).

(** [elems.map((value) => ({ value, sort: Math.random() }))], element by
    element from the left. *)
Fixpoint attach_keys (elems : list LinkIntermediate)
    : M (list (LinkIntermediate * Q)) :=
  match elems with
  | [] => mret []
  | value :: rest =>
      (sort ← random;
       keyed ← attach_keys rest;
       mret ((value, sort) :: keyed))
  end.

(** [links] is the reference the caller passes; the result is the
    reference of the array returned. *)
Definition shuffleAndTruncate (links : nat) (link_limit : Z)
    (link_order : LinkOrder) : M nat :=
  (linksToFollow ←
     match link_order with
     | RANDOM =>
         elems ← read_links links;
         copy ← alloc (LinkArray elems);             (* [...links] *)
         elems ← read_links copy;
         keyed ← attach_keys elems;
         mapped ← alloc (KeyedArray keyed);           (* .map(...) *)
         keyed ← read_keyed mapped;
         _ ← write mapped (KeyedArray (sort_by_sort keyed));  (* .sort(...) *)
         keyed ← read_keyed mapped;
         alloc (LinkArray (fst <$> keyed))             (* .map(...) *)
     | _ =>
         elems ← read_links links;
         alloc (LinkArray elems)                       (* [...links] *)
     end;
   elems ← read_links linksToFollow;
   alloc (LinkArray (Array_slice 0 (link_limit - 1) elems))).

End Selector.

(** ** Object names: [sanitizeObjectName]

    The regular expressions have no [u] flag: they see the text as UTF-16
    code units, and so does this model. *)

Module JsString.

Definition t := list N.

(** A text of one-byte characters as code units. *)
Definition of_string (s : string) : t :=
  Ascii.N_of_ascii <$> String.list_ascii_of_string s.

Definition underscore : N := 95%N.

(** The class of [invalidCharactersRegex]: carriage return, line feed,
    U+007F to U+009F, and the characters # [ ] * ? : < > | /
    and the double quote. *)
Definition invalidCharacter (c : N) : bool :=
  ((c =? 13) || (c =? 10) || ((127 <=? c) && (c <=? 159))
   || (c =? 35) || (c =? 91) || (c =? 93) || (c =? 42) || (c =? 63)
   || (c =? 58) || (c =? 34) || (c =? 60) || (c =? 62) || (c =? 124)
   || (c =? 47))%N.

(** White space and line terminators: what [\s] matches and what [trim]
    strips. *)
Definition whiteSpace (c : N) : bool :=
  (((9 <=? c) && (c <=? 13)) || (c =? 32) || (c =? 160) || (c =? 5760)
   || ((8192 <=? c) && (c <=? 8202)) || (c =? 8232) || (c =? 8233)
   || (c =? 8239) || (c =? 8287) || (c =? 12288) || (c =? 65279))%N.

Fixpoint strip_prefix (p s : t) : option t :=
  match p, s with
  | [], _ => Some s
  | a :: p', b :: s' => if (a =? b)%N then strip_prefix p' s' else None
  | _ :: _, [] => None
  end.

Definition eqb (a b : t) : bool := bool_decide (a = b).

(** [s.replace(/^\.well-known\/acme-challenge\//, '_')] *)
Definition replace_wellKnownPrefix (s : t) : t :=
  match strip_prefix (of_string ".well-known/acme-challenge/") s with
  | Some rest => underscore :: rest
  | None => s
  end.

(** [s.replace(invalidCharactersRegex, '_')], a global replacement. *)
Definition replace_invalidCharacters (s : t) : t :=
  (λ c, if invalidCharacter c then underscore else c) <$> s.

Fixpoint trimStart (s : t) : t :=
  match s with
  | c :: s' => if whiteSpace c then trimStart s' else s
  | [] => []
  end.

Definition trimEnd (s : t) : t := reverse (trimStart (reverse s)).

Definition trim (s : t) : t := trimEnd (trimStart s).

(** [s.replace(/\s+/g, '_')]: each maximal run of white space becomes one
    underscore; [in_run] tells that the previous unit was white space. *)
Fixpoint replace_whiteSpaceRuns (in_run : bool) (s : t) : t :=
  match s with
  | [] => []
  | c :: s' =>
      if whiteSpace c
      then (if in_run then replace_whiteSpaceRuns true s'
            else underscore :: replace_whiteSpaceRuns true s')
      else c :: replace_whiteSpaceRuns false s'
  end.

End JsString.

(** [inputString = None] is [null] or [undefined]. *)
Definition sanitizeObjectName (inputString : option JsString.t) : JsString.t :=
  match inputString with
  | None => JsString.of_string "_"
  | Some s =>
      if JsString.eqb s [] || JsString.eqb s (JsString.of_string ".")
         || JsString.eqb s (JsString.of_string "..")
      then JsString.of_string "_"
      else
        JsString.replace_whiteSpaceRuns false
          (JsString.trim
             (JsString.replace_invalidCharacters
                (JsString.replace_wellKnownPrefix s)))
  end.

(** ** Retrying fetcher: [fetchLink], [navigate] *)

(** [HTTPResponse | Error | null], and [undefined] for the field of the
    empty object [navigate] starts from. *)
Inductive ResponseOrError :=
| RHTTPResponse (status : Z)
| RError (name message : string)
| RNull
| RUndefined.

Record CommonResponseProps := {
  responseOrError : ResponseOrError;
  linkStartTime : option string;
  linkEndTime : option string;
}.

Record NavigateResponse := {
  nr_responseOrError : ResponseOrError;
  nr_passed : bool;
  nr_retriesRemaining : Z;
  nr_linkStartTime : option string;
  nr_linkEndTime : option string;
}.

(** Only a response object has a [status] member. *)
Definition isHTTPResponse (response : ResponseOrError) : bool :=
  match response with
  | RHTTPResponse _ => true
  | _ => false
  end.

(** How one [page.goto] ends: with a response or [null], or by throwing an
    [Error] or something else. *)
Inductive GotoResult :=
| GotoResponse (status : Z)
| GotoNull
| GotoThrewError (name message : string)
| GotoThrewOther.

(** What [navigate] leaves behind: its return value, every output of
    [fetchLink] in call order, and the state of the page afterwards. *)
Record NavigateRun (World : Type) := {
  returned : NavigateResponse;
  fetched : list CommonResponseProps;
  world : World;
}.
Arguments returned {World} _.
Arguments fetched {World} _.
Arguments world {World} _.

Section Fetcher.

(** The browser page and the clock: [page_goto uri timeout] is one
    [page.goto(uri, {waitUntil: 'load', timeout})], [now_iso] is
    [new Date().toISOString()]. *)
Context {World : Type}
        (page_goto : string → Z → World → GotoResult * World)
        (now_iso : World → string).

Definition fetchLink (target_uri : string) (timeout : Z) (w : World)
    : CommonResponseProps * World :=
  let linkStartTime := now_iso w in
  let '(result, w) := page_goto target_uri timeout w in
  let responseOrError :=
    match result with
    | GotoResponse status => RHTTPResponse status
    | GotoNull => RNull
    | GotoThrewError name message => RError name message
    | GotoThrewOther => RNull
    end in
  let linkEndTime := now_iso w in
  ({| responseOrError := responseOrError;
      linkStartTime := Some linkStartTime;
      linkEndTime := Some linkEndTime |}, w).

(** Whether an output of [fetchLink] counts as passing. *)
Definition attempt_passed (expected_status_code : ResponseStatusCode)
    (output : CommonResponseProps) : bool :=
  isHTTPResponse (responseOrError output)
  && match responseOrError output with
     | RHTTPResponse status =>
         checkStatusPassing (Some expected_status_code) status
     | _ => false
     end.

(** The [return] statement of [navigate], on the loop's variables. *)
Definition navigate_return (retriesRemaining : Z) (passed : bool)
    (fetch_link_output : CommonResponseProps)
    (fetched : list CommonResponseProps) (w : World) : NavigateRun World :=
  {| returned :=
       {| nr_responseOrError := responseOrError fetch_link_output;
          nr_passed := passed;
          nr_retriesRemaining := retriesRemaining;
          nr_linkStartTime := linkStartTime fetch_link_output;
          nr_linkEndTime := linkEndTime fetch_link_output |};
     fetched := fetched; world := w |}.

(** The [while] loop of [navigate], on its variables; [fetched] collects
    the outputs of [fetchLink]. *)
Equations? navigate_loop (target_uri : string) (timeout : Z)
    (expected_status_code : ResponseStatusCode)
    (retriesRemaining : Z) (passed : bool)
    (fetch_link_output : CommonResponseProps)
    (fetched : list CommonResponseProps) (w : World)
    : NavigateRun World by wf (Z.to_nat retriesRemaining) lt :=
  navigate_loop target_uri timeout expected_status_code
      retriesRemaining passed fetch_link_output fetched w
    with Z_lt_dec 0 retriesRemaining => {
    | left _ with passed => {
      | false =>
          let retriesRemaining := retriesRemaining - 1 in
          let out := fetchLink target_uri timeout w in
          navigate_loop target_uri timeout expected_status_code
            retriesRemaining
            (attempt_passed expected_status_code (fst out))
            (fst out) (fetched ++ [fst out]) (snd out);
      | true =>
          navigate_return retriesRemaining passed fetch_link_output
            fetched w };
    | right _ =>
        navigate_return retriesRemaining passed fetch_link_output
          fetched w }.
Proof. lia. Qed.

Definition navigate (link : LinkIntermediate)
    (options : BrokenLinkCheckerOptions)
    (expected_status_code : ResponseStatusCode) (w : World)
    : NavigateRun World :=
  let fetch_link_output :=
    {| responseOrError := RUndefined;
       linkStartTime := None; linkEndTime := None |} in
  let retriesRemaining := max_retries options + 1 in
  let per_link_timeout_millis :=
    default (link_timeout_millis options)
      (per_link_options options !! li_target_uri link
         ≫= plo_link_timeout_millis) in
  navigate_loop (li_target_uri link) per_link_timeout_millis
    expected_status_code retriesRemaining false fetch_link_output [] w.

(** The outputs of [n] calls of [fetchLink] in a row, and the state of the
    page after them. *)
Fixpoint fetches (target_uri : string) (timeout : Z) (n : nat) (w : World)
    : list CommonResponseProps * World :=
  match n with
  | O => ([], w)
  | S n =>
      let out := fetchLink target_uri timeout w in
      let rest := fetches target_uri timeout n (snd out) in
      (fst out :: fst rest, snd rest)
  end.

End Fetcher.

(** ** Deadline-bounded batch runner: [checkLinks]

    [checkLinks] starts a timer and the worker [sequentialPromises] and
    returns the promise of their race.  Between two [await]s nothing else
    runs, so a run is a sequence of events, each handled to completion: the
    timer going off, or the operation the worker awaits ending.  The state
    holds the variables both sides share. *)

Module Batch.

(** Where the worker is suspended, or how it ended. *)
Inductive Worker :=
| OpeningPage (links : list LinkIntermediate)   (* await openNewPage *)
| CheckingLink (link : LinkIntermediate) (rest : list LinkIntermediate)
                                                (* await checkLink *)
| ResettingPage (rest : list LinkIntermediate)  (* await gotoBlankPage *)
| WorkerReturned (finished : bool)
| WorkerThrew (message : string).

(** How the promise [checkLinks] returns is settled: fulfilled with the
    array [followed_links] (holding [results] at that moment), or
    rejected. *)
Inductive Outcome :=
| Fulfilled (results : list SyntheticLinkResult)
| Rejected (message : string).

Record State := {
  timeLimitReached : bool;
  followed_links : list SyntheticLinkResult;
  timeLimitTimeout : bool;       (* the timer is armed *)
  settled : option Outcome;
  worker : Worker;
  started : list LinkIntermediate;   (* the calls of checkLink so far *)
}.

Inductive Event :=
| TimerFired
| PageOpened
| PageOpenFailed
| LinkChecked (result : SyntheticLinkResult)
| LinkCheckThrew
| PageReset.

(** The [then] callback of the race, called with the winner's value. *)
Definition race_won (sequentialPromisesfinished : bool) (s : State) : State :=
  {| timeLimitReached := negb sequentialPromisesfinished;
     followed_links := followed_links s;
     timeLimitTimeout := false;                      (* clearTimeout *)
     settled := Some (Fulfilled (followed_links s));
     worker := worker s;
     started := started s |}.

Definition set_worker (wk : Worker) (s : State) : State :=
  {| timeLimitReached := timeLimitReached s;
     followed_links := followed_links s;
     timeLimitTimeout := timeLimitTimeout s;
     settled := settled s;
     worker := wk;
     started := started s |}.

(** The worker returns [finished]; the race is won if still open. *)
Definition worker_returns (finished : bool) (s : State) : State :=
  let s := set_worker (WorkerReturned finished) s in
  match settled s with
  | None => race_won finished s
  | Some _ => s
  end.

(** The worker throws; the race is lost with that error if still open. *)
Definition worker_throws (message : string) (s : State) : State :=
  let s := set_worker (WorkerThrew message) s in
  match settled s with
  | None =>
      {| timeLimitReached := timeLimitReached s;
         followed_links := followed_links s;
         timeLimitTimeout := timeLimitTimeout s;
         settled := Some (Rejected message);
         worker := worker s;
         started := started s |}
  | Some _ => s
  end.

(** The head of [for (const link of links)] with [rest] still to visit. *)
Definition loop_head (rest : list LinkIntermediate) (s : State) : State :=
  match rest with
  | [] => worker_returns true s
  | link :: rest =>
      if timeLimitReached s then worker_returns false s
      else {| timeLimitReached := timeLimitReached s;
              followed_links := followed_links s;
              timeLimitTimeout := timeLimitTimeout s;
              settled := settled s;
              worker := CheckingLink link rest;
              started := started s ++ [link] |}
  end.

(** [followed_links.push(result)], then [await gotoBlankPage(page)]. *)
Definition push_result (result : SyntheticLinkResult)
    (rest : list LinkIntermediate) (s : State) : State :=
  {| timeLimitReached := timeLimitReached s;
     followed_links := followed_links s ++ [result];
     timeLimitTimeout := timeLimitTimeout s;
     settled := settled s;
     worker := ResettingPage rest;
     started := started s |}.

Definition timer_fires (s : State) : State :=
  let s := {| timeLimitReached := timeLimitReached s;
              followed_links := followed_links s;
              timeLimitTimeout := false;
              settled := settled s;
              worker := worker s;
              started := started s |} in
  match settled s with
  | None => race_won false s
  | Some _ => s
  end.

(** An event that cannot happen in a state leaves it as it is. *)
Definition step (s : State) (e : Event) : State :=
  match e, worker s with
  | TimerFired, _ => if timeLimitTimeout s then timer_fires s else s
  | PageOpened, OpeningPage links => loop_head links s
  | PageOpenFailed, OpeningPage _ =>
      worker_throws "An error occurred while opening a new puppeteer.Page." s
  | LinkChecked result, CheckingLink _ rest => push_result result rest s
  | LinkCheckThrew, CheckingLink link _ =>
      worker_throws
        ("An error occurred while checking " +:+ li_target_uri link
         +:+ ". Please reference server logs for further information.") s
  | PageReset, ResettingPage rest => loop_head rest s
  | _, _ => s
  end.

(** The state in which [checkLinks] returns its promise: the timer armed,
    the worker started and waiting for its page. *)
Definition checkLinks (links : list LinkIntermediate) : State :=
  {| timeLimitReached := false;
     followed_links := [];
     timeLimitTimeout := true;
     settled := None;
     worker := OpeningPage links;
     started := [] |}.

Definition run (s : State) (events : list Event) : State :=
  foldl step s events.

(** While the promise is open the timer is armed and the flag is down. *)
Definition open_inv (s : State) : Prop :=
  settled s = None → timeLimitTimeout s = true ∧ timeLimitReached s = false.

(** After the deadline: the flag is up and the promise is settled. *)
Definition expired (s : State) : Prop :=
  timeLimitReached s = true ∧ is_Some (settled s).

End Batch.

(** ** [Date.prototype.toISOString]

    The built-in, for time values in the years 0000 to 9999: milliseconds
    since 1970-01-01T00:00:00.000Z, rendered as YYYY-MM-DDTHH:mm:ss.sssZ. *)

Module Date.

(** Year, month and day of a day number counted from 1970-01-01, in the
    proleptic Gregorian calendar (eras of 400 years starting on 1 March). *)
Definition civil_from_days (days : Z) : Z * Z * Z :=
  let z := days + 719468 in
  let era := z / 146097 in
  let doe := z - era * 146097 in
  let yoe := (doe - doe / 1460 + doe / 36524 - doe / 146096) / 365 in
  let doy := doe - (365 * yoe + yoe / 4 - yoe / 100) in
  let mp := (5 * doy + 2) / 153 in
  let d := doy - (153 * mp + 2) / 5 + 1 in
  let m := if mp <? 10 then mp + 3 else mp - 9 in
  let y := yoe + era * 400 + (if m <=? 2 then 1 else 0) in
  (y, m, d).

(** The last [width] decimal digits of [n]. *)
Fixpoint digits (width : nat) (n : Z) : string :=
  match width with
  | O => ""
  | S width =>
      digits width (n / 10)
      +:+ String (Ascii.ascii_of_nat (48 + Z.to_nat (n mod 10))) ""
  end.

Definition toISOString (t : Z) : string :=
  let '(y, m, d) := civil_from_days (t / 86400000) in
  let ms := t mod 86400000 in
  digits 4 y +:+ "-" +:+ digits 2 m +:+ "-" +:+ digits 2 d +:+ "T"
  +:+ digits 2 (ms / 3600000) +:+ ":"
  +:+ digits 2 (ms / 60000 mod 60) +:+ ":"
  +:+ digits 2 (ms / 1000 mod 60) +:+ "."
  +:+ digits 3 (ms mod 1000) +:+ "Z".

End Date.

(** ** Notions used to state the properties *)

(** The expectation of a status class alone. *)
Definition class_band (c : ResponseStatusCode_StatusClass)
    : ResponseStatusCode :=
  {| status_value := None; status_class := Some c |}.

(** By how much each of the five buckets grew from [r] to [r']: 2xx, 3xx,
    4xx, 5xx, unreachable. *)
Definition bucket_deltas (r r' : BrokenLinksResultV1) : list Z :=
  [ status2xx_count r' - status2xx_count r;
    status3xx_count r' - status3xx_count r;
    status4xx_count r' - status4xx_count r;
    status5xx_count r' - status5xx_count r;
    unreachable_count r' - unreachable_count r ].

(** A result counts when its verdict is defined. *)
Definition counted (link : SyntheticLinkResult) : bool :=
  bool_decide (is_Some (link_passed link)).

(** A result with the given verdict, status code and origin mark, and
    nothing else filled in. *)
Definition link_result (passed : option bool) (code : option Z)
    (origin : option bool) : SyntheticLinkResult :=
  {| link_passed := passed; expected_status_code := None;
     source_uri := ""; target_uri := ""; anchor_text := "";
     html_element := ""; status_code := code;
     link_error_type := ""; link_error_message := "";
     link_start_time := None; link_end_time := None;
     is_origin := origin;
     screenshot_output :=
       {| screenshot_file := ""; screenshot_error := None |} |}.

Definition link (uri : string) : LinkIntermediate :=
  {| li_target_uri := uri; li_anchor_text := ""; li_html_element := "a" |}.

(** A store with one array of three links at reference 0. *)
Definition three_links : Mem :=
  {| heap :=
       {[ 0%nat := LinkArray [link "link1"; link "link2"; link "link3"] ]};
     random_calls := 0 |}.

(** A page that answers 404 to the first navigation and 200 from then on;
    its state is the number of navigations made. *)
Definition flaky_page (uri : string) (timeout : Z) (w : nat)
    : GotoResult * nat :=
  (if decide (w = 0%nat) then GotoResponse 404 else GotoResponse 200, S w).

Definition retry_options (R : Z) : BrokenLinkCheckerOptions :=
  {| origin_uri := "https://example.com"; link_limit := 50;
     link_order := FIRST_N; link_timeout_millis := 30000;
     max_retries := R; per_link_options := ∅;
     total_synthetic_timeout_millis := 60000;
     screenshot_options :=
       {| storage_location := ""; capture_condition := FAILING |} |}.

Definition expect_2xx : ResponseStatusCode := class_band STATUS_CLASS_2XX.

(** The worker of [checkLinks] is suspended at [await checkLink]. *)
Definition awaits_checkLink (s : Batch.State) : bool :=
  match Batch.worker s with
  | Batch.CheckingLink _ _ => true
  | _ => false
  end.

(** The results of the link checks that end in the course of [events],
    from the state [s] on, in the order in which they end.  The end of a
    check counts when the worker is waiting for it at that moment. *)
Fixpoint gathered (s : Batch.State) (events : list Batch.Event)
    : list SyntheticLinkResult :=
  match events with
  | [] => []
  | e :: events =>
      match e with
      | Batch.LinkChecked result =>
          if awaits_checkLink s
          then result :: gathered (Batch.step s e) events
          else gathered (Batch.step s e) events
      | _ => gathered (Batch.step s e) events
      end
  end.

(** ** Link check: [checkLink] *)

(** A number in a template literal; [undefined] prints as its name. *)
Definition show_number (n : option Z) : string :=
  match n with
  | Some z => pretty z
  | None => "undefined"
  end.

(** [responseOrError?.status()] *)
Definition response_status (r : ResponseOrError) : option Z :=
  match r with
  | RHTTPResponse status => Some status
  | _ => None
  end.

(** The text [checkLink] reports when a link fails without an [Error]. *)
Definition incorrect_status_message (target : string)
    (responseOrError : ResponseOrError)
    (expectedStatusCode : ResponseStatusCode) : string :=
  let classOrCode :=
    match status_class expectedStatusCode with
    | Some c => if StatusClass_value c =? 0 then "code" else "class"
    | None => "code"
    end in
  let expectedStatus :=
    match status_class expectedStatusCode with
    | Some c => Some (StatusClass_value c)
    | None => status_value expectedStatusCode
    end in
  target +:+ " returned status code "
  +:+ show_number (response_status responseOrError)
  +:+ " when a " +:+ show_number expectedStatus +:+ " status "
  +:+ classOrCode +:+ " was expected.".

(** The expectation [checkLink] applies to a link: the one set for its
    target in [per_link_options], else the class 2xx. *)
Definition expected_status_for (options : BrokenLinkCheckerOptions)
    (link : LinkIntermediate) : ResponseStatusCode :=
  default {| status_value := None; status_class := Some STATUS_CLASS_2XX |}
    (per_link_options options !! li_target_uri link
       ≫= plo_expected_status_code).

Section LinkChecker.

(** The page and the clock as for [fetchLink], and
    [uploadScreenshotToGCS(page, storageParams, options)] of storage_func. *)
Context {World : Type}
        (page_goto : string → Z → World → GotoResult * World)
        (now_iso : World → string)
        (uploadScreenshotToGCS :
           StorageParameters → BrokenLinkCheckerOptions → World
           → ScreenshotOutput * World).

Definition checkLink (link : LinkIntermediate)
    (options : BrokenLinkCheckerOptions) (storageParams : StorageParameters)
    (isOrigin : bool) (w : World) : SyntheticLinkResult * World :=
  let expectedStatusCode := expected_status_for options link in
  let nav := navigate page_goto now_iso link options expectedStatusCode w in
  let responseOrError := nr_responseOrError (returned nav) in
  let passed := nr_passed (returned nav) in
  let shot :=
    if shouldTakeScreenshot options passed
    then uploadScreenshotToGCS storageParams options (world nav)
    else ({| screenshot_file := ""; screenshot_error := None |}, world nav) in
  let error :=
    match responseOrError with
    | RError name message => (name, message)
    | _ =>
        if negb passed
        then ("BrokenLinksSynthetic_IncorrectStatusCode",
              incorrect_status_message (li_target_uri link) responseOrError
                expectedStatusCode)
        else ("", "")
    end in
  ({| link_passed := Some passed;
      expected_status_code := Some expectedStatusCode;
      source_uri := origin_uri options;
      target_uri := li_target_uri link;
      anchor_text := li_anchor_text link;
      html_element := li_html_element link;
      status_code :=
        if isHTTPResponse responseOrError
        then response_status responseOrError else None;
      link_error_type := fst error;
      link_error_message := snd error;
      link_start_time := nr_linkStartTime (returned nav);
      link_end_time := nr_linkEndTime (returned nav);
      is_origin := Some isOrigin;
      screenshot_output := fst shot |}, snd shot).

End LinkChecker.

(** ** Link discovery: [retrieveLinksFromPage] *)

(** An element the selector matched: its text, tag name and attributes. *)
Record HTMLElement := {
  textContent : option string;
  tagName : string;
  attributes : gmap string string;
}.

Definition startsWith (searchString s : string) : bool :=
  String.prefix searchString s.

Section LinkScraper.

(** [URL_href value base] is [new URL(value, base).href], [None] when the
    constructor throws; [String_trim] and [toLocaleLowerCase] are the string
    methods. *)
Context (URL_href : string → string → option string)
        (String_trim : string → string)
        (toLocaleLowerCase : string → string).

(** What one attribute value contributes: nothing when the filter drops
    it, one link otherwise; [None] when resolving the value throws. *)
Definition link_of_value (origin_uri anchor_text html_element value : string)
    : option (list LinkIntermediate) :=
  qualifed_url ← URL_href value origin_uri;
  if negb (String.eqb value "")
     && (startsWith "http" qualifed_url || startsWith "file:" qualifed_url)
  then
    target ← (if startsWith "file:" value then Some value
              else URL_href value origin_uri);
    Some [ {| li_target_uri := target;
              li_anchor_text := anchor_text;
              li_html_element := html_element |} ]
  else Some [].

(** The callback of [flatMap], for one element. *)
Definition links_of_element (origin_uri : string)
    (get_attributes : list string) (link_element : HTMLElement)
    : option (list LinkIntermediate) :=
  let anchor_text := default "" (String_trim <$> textContent link_element) in
  mjoin <$>
    mapM (λ attr,
            link_of_value origin_uri anchor_text
              (toLocaleLowerCase (tagName link_element))
              (default "" (attributes link_element !! attr)))
         get_attributes.

(** [origin_uri] is [page.url()] and [link_elements] what
    [document.querySelectorAll(query_selector_all)] finds. *)
Definition retrieveLinksFromPage (origin_uri : string)
    (link_elements : list HTMLElement) (get_attributes : list string)
    : option (list LinkIntermediate) :=
  mjoin <$> mapM (links_of_element origin_uri get_attributes) link_elements.

End LinkScraper.

(** ** Further notions used to state the properties *)

(** A result marked as the origin's. *)
Definition origin_result (link : SyntheticLinkResult) : bool :=
  bool_decide (is_origin link = Some true).

(** A result whose verdict is [passed]. *)
Definition verdict_is (passed : bool) (link : SyntheticLinkResult) : bool :=
  bool_decide (link_passed link = Some passed).

(** A result whose status code is present and lies in [lo..hi]. *)
Definition status_in (lo hi : Z) (link : SyntheticLinkResult) : bool :=
  match status_code link with
  | Some c => (lo <=? c) && (c <=? hi)
  | None => false
  end.

(** How many elements of [l] satisfy [f]. *)
Definition count_of {A} (f : A → bool) (l : list A) : Z :=
  Z.of_nat (length (filter f l)).

(** A name [sanitizeObjectName] has no character to change in: no code
    unit of the invalid class and no white space. *)
Definition clean_name (s : JsString.t) : Prop :=
  Forall (λ c, JsString.invalidCharacter c = false
               ∧ JsString.whiteSpace c = false) s.

(** A text made of white space that is not of the invalid class (carriage
    return and line feed are of it). *)
Definition blank_name (s : JsString.t) : Prop :=
  Forall (λ c, JsString.whiteSpace c = true
               ∧ JsString.invalidCharacter c = false) s.

(** The numbers the next [k] calls of [Math.random()] return in store [m]. *)
Definition draws (Math_random : nat → Q) (m : Mem) (k : nat) : list Q :=
  Math_random <$> seq (random_calls m) k.

(** Keys in ascending order. *)
Definition ascending (keyed : list (LinkIntermediate * Q)) : Prop :=
  Sorted (λ a b, (snd a <= snd b)%Q) keyed.

(** The timeout [navigate] gives every attempt on [link]: the one set for
    its target in [per_link_options], else [link_timeout_millis]. *)
Definition timeout_for (options : BrokenLinkCheckerOptions)
    (link : LinkIntermediate) : Z :=
  default (link_timeout_millis options)
    (per_link_options options !! li_target_uri link
       ≫= plo_link_timeout_millis).

(** An upload that stores nothing and reports a file name; storage
    parameters without a bucket. *)
Definition no_upload (storageParams : StorageParameters)
    (options : BrokenLinkCheckerOptions) (w : nat) : ScreenshotOutput * nat :=
  ({| screenshot_file := "shot.png"; screenshot_error := None |}, w).

Definition no_storage : StorageParameters :=
  {| bucket := None; checkId := None; executionId := None;
     screenshotNumber := 1 |}.

(** The two errors [checkLinks] can be rejected with. *)
Definition page_open_failed_message : string :=
  "An error occurred while opening a new puppeteer.Page.".

Definition link_check_failed_message (link : LinkIntermediate) : string :=
  "An error occurred while checking " +:+ li_target_uri link
  +:+ ". Please reference server logs for further information.".

(** The events of a run in which the page opens and every check ends with
    the next of [results], in order, before the timer goes off. *)
Definition completion_events (results : list SyntheticLinkResult)
    : list Batch.Event :=
  Batch.PageOpened
  :: mjoin ((λ result, [Batch.LinkChecked result; Batch.PageReset])
              <$> results).

(** What holds of the worker of a run over [links] at any moment: the
    checks started are the first links, in order; each result belongs to a
    started check, and only the check in flight has none yet; a worker that
    threw did so with the error of the page or of the check in flight. *)
Definition worker_inv (links : list LinkIntermediate) (s : Batch.State)
    : Prop :=
  match Batch.worker s with
  | Batch.OpeningPage ls =>
      ls = links ∧ Batch.started s = [] ∧ Batch.followed_links s = []
  | Batch.CheckingLink l rest =>
      links = Batch.started s ++ rest
      ∧ last (Batch.started s) = Some l
      ∧ length (Batch.started s) = S (length (Batch.followed_links s))
  | Batch.ResettingPage rest =>
      links = Batch.started s ++ rest
      ∧ length (Batch.started s) = length (Batch.followed_links s)
  | Batch.WorkerReturned finished =>
      Batch.started s `prefix_of` links
      ∧ length (Batch.started s) = length (Batch.followed_links s)
  | Batch.WorkerThrew message =>
      Batch.started s `prefix_of` links
      ∧ ((message = page_open_failed_message
          ∧ Batch.started s = [] ∧ Batch.followed_links s = [])
         ∨ (∃ l, last (Batch.started s) = Some l
                 ∧ message = link_check_failed_message l
                 ∧ length (Batch.started s)
                   = S (length (Batch.followed_links s))))
  end
  ∧ (∀ message, Batch.settled s = Some (Batch.Rejected message) →
                Batch.worker s = Batch.WorkerThrew message)
  ∧ (∀ results, Batch.settled s = Some (Batch.Fulfilled results) →
                Batch.timeLimitTimeout s = false).

(** After the deadline, with [results] the array's contents when the timer
    went off: the array still holds them, or them and the result of the
    check that was in flight, after which no check is in flight. *)
Definition late_result_inv (results : list SyntheticLinkResult)
    (s : Batch.State) : Prop :=
  Batch.expired s
  ∧ (Batch.followed_links s = results
     ∨ (∃ result, Batch.followed_links s = results ++ [result])
       ∧ ∀ l rest, Batch.worker s ≠ Batch.CheckingLink l rest).

(** A resolver that takes a value with a scheme as it is and appends any
    other value to the base; a page with one anchor. *)
Definition simple_href (value base : string) : option string :=
  Some (if startsWith "http" value || startsWith "file:" value
        then value else base +:+ value).

Definition about_anchor : HTMLElement :=
  {| textContent := Some "About"; tagName := "A";
     attributes := {[ "href" := "/about" ]} |}.

Definition about_link : LinkIntermediate :=
  {| li_target_uri := "https://example.com/about";
     li_anchor_text := "About"; li_html_element := "A" |}.


(** * Properties *)

(** ** Status matcher *)

Local Ltac pick_band :=
  first [ split; [lia | reflexivity]
        | left; split; [lia | reflexivity]
        | right; pick_band ].

Lemma StatusClass_value_band (B : Z) (c : ResponseStatusCode_StatusClass) :
  1 ≤ B ≤ 5 → StatusClass_value c = 100 * B →
  (B = 1 ∧ c = STATUS_CLASS_1XX) ∨ (B = 2 ∧ c = STATUS_CLASS_2XX)
  ∨ (B = 3 ∧ c = STATUS_CLASS_3XX) ∨ (B = 4 ∧ c = STATUS_CLASS_4XX)
  ∨ (B = 5 ∧ c = STATUS_CLASS_5XX).
Proof.
  destruct c; cbn [StatusClass_value]; intros HB Hc; try lia; pick_band.
Qed.

(** The cases the package's tests check. *)
Example checkStatusPassing_package_tests :
  let exactly v := Some {| status_value := Some v; status_class := None |} in
  checkStatusPassing (exactly 200) 200 = true
  ∧ checkStatusPassing (exactly 200) 404 = false
  ∧ checkStatusPassing (exactly 404) 200 = false
  ∧ checkStatusPassing (exactly 404) 404 = true
  ∧ checkStatusPassing (Some (class_band STATUS_CLASS_1XX)) 100 = true
  ∧ checkStatusPassing (Some (class_band STATUS_CLASS_3XX)) 304 = true
  ∧ checkStatusPassing (Some (class_band STATUS_CLASS_5XX)) 504 = true
  ∧ checkStatusPassing (Some (class_band STATUS_CLASS_2XX)) 404 = false
  ∧ checkStatusPassing (Some (class_band STATUS_CLASS_5XX)) 200 = false.
Proof. repeat split. Qed.

(** C3.  For a class band [B] in 1..5 the matcher accepts exactly the codes
    from [100*B] to [100*B + 99]; for an exact expectation it accepts exactly
    the expected value, whatever class is also present; a missing
    expectation, or one with neither member set, accepts nothing. *)
Theorem checkStatusPassing_correct :
  (∀ (B : Z) (c : ResponseStatusCode_StatusClass) (actual : Z),
     1 ≤ B ≤ 5 → StatusClass_value c = 100 * B →
     checkStatusPassing (Some (class_band c)) actual = true
     ↔ 100 * B ≤ actual ≤ 100 * B + 99)
  ∧ (∀ (v actual : Z) (c : option ResponseStatusCode_StatusClass),
       checkStatusPassing
         (Some {| status_value := Some v; status_class := c |}) actual = true
       ↔ actual = v)
  ∧ (∀ actual : Z,
       checkStatusPassing None actual = false
       ∧ checkStatusPassing
           (Some {| status_value := None; status_class := None |}) actual
         = false).
Proof.
  split; [|split].
  - intros B c actual HB Hc.
    destruct (StatusClass_value_band B c HB Hc)
      as [[-> ->]|[[-> ->]|[[-> ->]|[[-> ->]|[-> ->]]]]];
      cbn; rewrite andb_true_iff, !Z.leb_le; lia.
  - intros v actual c. cbn. rewrite Z.eqb_eq. split; congruence.
  - intros actual. split; reflexivity.
Qed.

Lemma checkStatusPassing_correct_witness :
  (checkStatusPassing (Some (class_band STATUS_CLASS_4XX)) 404 = true
   ↔ 100 * 4 ≤ 404 ≤ 100 * 4 + 99)
  ∧ (checkStatusPassing (Some (class_band STATUS_CLASS_4XX)) 500 = true
     ↔ 100 * 4 ≤ 500 ≤ 100 * 4 + 99).
Proof.
  split.
  - apply (proj1 checkStatusPassing_correct 4 STATUS_CLASS_4XX 404);
      [lia | reflexivity].
  - apply (proj1 checkStatusPassing_correct 4 STATUS_CLASS_4XX 500);
      [lia | reflexivity].
Defined.

(** C9.  A status class that is none of the five bands 1xx to 5xx
    ([STATUS_CLASS_ANY], [STATUS_CLASS_UNSPECIFIED]) accepts no code. *)
Theorem checkStatusPassing_other_class
    (c : ResponseStatusCode_StatusClass) (actual : Z) :
  (∀ B : Z, 1 ≤ B ≤ 5 → StatusClass_value c ≠ 100 * B) →
  checkStatusPassing (Some (class_band c)) actual = false.
Proof.
  intros Hc. destruct c; try reflexivity; exfalso.
  - apply (Hc 1); [lia | reflexivity].
  - apply (Hc 2); [lia | reflexivity].
  - apply (Hc 3); [lia | reflexivity].
  - apply (Hc 4); [lia | reflexivity].
  - apply (Hc 5); [lia | reflexivity].
Qed.

Lemma checkStatusPassing_other_class_witness :
  checkStatusPassing (Some (class_band STATUS_CLASS_ANY)) 200 = false
  ∧ checkStatusPassing (Some (class_band STATUS_CLASS_UNSPECIFIED)) 200
    = false.
Proof.
  split.
  - apply (checkStatusPassing_other_class STATUS_CLASS_ANY 200).
    intros B HB. cbn [StatusClass_value]. lia.
  - apply (checkStatusPassing_other_class STATUS_CLASS_UNSPECIFIED 200).
    intros B HB. cbn [StatusClass_value]. lia.
Defined.

(** ** Result aggregator *)

Local Ltac list_eq_lia :=
  repeat (apply (f_equal2 cons); [lia|]); try reflexivity.

(** What the switch does to the buckets, by the hundreds of the code. *)
Lemma count_status_deltas (code : option Z) (r : BrokenLinksResultV1) :
  bucket_deltas r (count_status code r) =
    match code with
    | Some c =>
        if decide (200 ≤ c ≤ 299) then [1; 0; 0; 0; 0]
        else if decide (300 ≤ c ≤ 399) then [0; 1; 0; 0; 0]
        else if decide (400 ≤ c ≤ 499) then [0; 0; 1; 0; 0]
        else if decide (500 ≤ c ≤ 599) then [0; 0; 0; 1; 0]
        else [0; 0; 0; 0; 1]
    | None => [0; 0; 0; 0; 1]
    end.
Proof.
  unfold count_status, status_hundreds, bucket_deltas.
  destruct code as [c|]; cbn [fmap option_fmap option_map].
  - repeat case_decide.
    + replace (c / 100) with 2 by (apply Z.div_unique with (c - 200); lia).
      cbn. list_eq_lia.
    + replace (c / 100) with 3 by (apply Z.div_unique with (c - 300); lia).
      cbn. list_eq_lia.
    + replace (c / 100) with 4 by (apply Z.div_unique with (c - 400); lia).
      cbn. list_eq_lia.
    + replace (c / 100) with 5 by (apply Z.div_unique with (c - 500); lia).
      cbn. list_eq_lia.
    + assert (Hq : c / 100 < 2 ∨ 5 < c / 100).
      { destruct (Z_lt_dec c 200) as [Hlt|Hge].
        - left. apply Z.div_lt_upper_bound; lia.
        - right. assert (6 ≤ c / 100) by (apply Z.div_le_lower_bound; lia).
          lia. }
      generalize dependent (c / 100). intros q Hq.
      repeat match goal with
             | |- context [match ?x with _ => _ end] => destruct x; try lia
             end;
        cbn; list_eq_lia.
  - cbn. list_eq_lia.
Qed.

(** The counters other than the buckets are left alone by the switch. *)
Lemma count_status_totals (code : option Z) (r : BrokenLinksResultV1) :
  link_count (count_status code r) = link_count r
  ∧ passing_link_count (count_status code r) = passing_link_count r
  ∧ failing_link_count (count_status code r) = failing_link_count r.
Proof.
  unfold count_status.
  generalize (status_hundreds code). intros q.
  repeat match goal with
         | |- context [match ?x with _ => _ end] => destruct x
         end; cbn; auto.
Qed.

(** One iteration on a counted result: one more link, one more verdict, and
    the buckets changed by the switch alone. *)
Lemma parse_link_counted (r : BrokenLinksResultV1) (link : SyntheticLinkResult)
    (passed : bool) :
  link_passed link = Some passed →
  link_count (parse_link r link) = link_count r + 1
  ∧ passing_link_count (parse_link r link)
    = passing_link_count r + (if passed then 1 else 0)
  ∧ failing_link_count (parse_link r link)
    = failing_link_count r + (if passed then 0 else 1)
  ∧ bucket_deltas r (parse_link r link)
    = bucket_deltas r (count_status (status_code link) r).
Proof.
  intros Hp. unfold parse_link. rewrite Hp.
  match goal with
  | |- context [count_status ?c ?x] => remember x as r3 eqn:Hr3
  end.
  assert (Hr : link_count r3 = link_count r + 1
               ∧ passing_link_count r3
                 = passing_link_count r + (if passed then 1 else 0)
               ∧ failing_link_count r3
                 = failing_link_count r + (if passed then 0 else 1)
               ∧ bucket_deltas r r3 = [0; 0; 0; 0; 0]).
  { subst r3. unfold bucket_deltas.
    destruct (is_origin link) as [[|]|], passed; cbn;
      repeat split; try lia; list_eq_lia. }
  clear Hr3. destruct Hr as (Hl0 & Hpa0 & Hfa0 & Hsame).
  destruct (count_status_totals (status_code link) r3) as (Hl & Hpa & Hfa).
  rewrite Hl, Hpa, Hfa.
  pose proof (count_status_deltas (status_code link) r3) as H3.
  rewrite <- (count_status_deltas (status_code link) r) in H3.
  unfold bucket_deltas in *.
  injection Hsame as E2 E3 E4 E5 Eu.
  injection H3 as F2 F3 F4 F5 Fu.
  repeat split; try lia. list_eq_lia.
Qed.

Lemma parse_link_skipped (r : BrokenLinksResultV1)
    (link : SyntheticLinkResult) :
  link_passed link = None → parse_link r link = r.
Proof. intros Hp. unfold parse_link. now rewrite Hp. Qed.

(** The invariant of the loop, from any report it may start in. *)
Lemma foldl_parse_link_totals (links : list SyntheticLinkResult)
    (r : BrokenLinksResultV1) :
  let r' := foldl parse_link r links in
  link_count r' = link_count r + Z.of_nat (length (filter counted links))
  ∧ passing_link_count r' + failing_link_count r'
    = passing_link_count r + failing_link_count r
      + Z.of_nat (length (filter counted links))
  ∧ status2xx_count r' + status3xx_count r' + status4xx_count r'
    + status5xx_count r' + unreachable_count r'
    = status2xx_count r + status3xx_count r + status4xx_count r
      + status5xx_count r + unreachable_count r
      + Z.of_nat (length (filter counted links)).
Proof.
  revert r. induction links as [|link links IH]; intros r; cbn [foldl].
  - cbn. lia.
  - specialize (IH (parse_link r link)). cbn zeta in IH.
    destruct IH as (IH1 & IH2 & IH3).
    destruct (link_passed link) as [passed|] eqn:Hp.
    + assert (Hc : counted link = true).
      { unfold counted. rewrite Hp. apply bool_decide_eq_true. eauto. }
      rewrite filter_cons_True by (rewrite Hc; exact I).
      cbn [length]. rewrite Nat2Z.inj_succ.
      destruct (parse_link_counted r link passed Hp) as (H1 & H2 & H3 & H4).
      pose proof (count_status_deltas (status_code link) r) as Hd.
      rewrite <- H4 in Hd. unfold bucket_deltas in Hd.
      assert (Hsum :
        status2xx_count (parse_link r link)
        + status3xx_count (parse_link r link)
        + status4xx_count (parse_link r link)
        + status5xx_count (parse_link r link)
        + unreachable_count (parse_link r link)
        = status2xx_count r + status3xx_count r + status4xx_count r
          + status5xx_count r + unreachable_count r + 1).
      { destruct (status_code link) as [c|];
          repeat case_decide; injection Hd as E2 E3 E4 E5 Eu; lia. }
      cbn zeta. destruct passed; lia.
    + assert (Hc : counted link = false).
      { unfold counted. rewrite Hp. apply bool_decide_eq_false.
        intros [? ?]; discriminate. }
      rewrite filter_cons_False by (rewrite Hc; exact id).
      rewrite (parse_link_skipped r link Hp) in *. cbn zeta. lia.
Qed.

(** C4.  In the report of any list of results the passing and failing
    counts add up to [link_count], and so do the five buckets;
    [link_count] is the number of results with a defined verdict; and one
    iteration on such a result raises exactly one of the five buckets, by
    one, while a result without a verdict changes nothing. *)
Theorem parseFollowedLinks_totals (followed_links : list SyntheticLinkResult) :
  passing_link_count (parseFollowedLinks followed_links)
  + failing_link_count (parseFollowedLinks followed_links)
  = link_count (parseFollowedLinks followed_links)
  ∧ status2xx_count (parseFollowedLinks followed_links)
    + status3xx_count (parseFollowedLinks followed_links)
    + status4xx_count (parseFollowedLinks followed_links)
    + status5xx_count (parseFollowedLinks followed_links)
    + unreachable_count (parseFollowedLinks followed_links)
    = link_count (parseFollowedLinks followed_links)
  ∧ link_count (parseFollowedLinks followed_links)
    = Z.of_nat (length (filter counted followed_links))
  ∧ ∀ (r : BrokenLinksResultV1) (link : SyntheticLinkResult),
      if counted link
      then bucket_deltas r (parse_link r link)
           ∈ [ [1; 0; 0; 0; 0]; [0; 1; 0; 0; 0]; [0; 0; 1; 0; 0];
               [0; 0; 0; 1; 0]; [0; 0; 0; 0; 1] ]
      else parse_link r link = r.
Proof.
  pose proof (foldl_parse_link_totals followed_links Report.initial) as H.
  cbn zeta in H. fold (parseFollowedLinks followed_links) in H.
  cbn [Report.initial link_count passing_link_count failing_link_count
       status2xx_count status3xx_count status4xx_count status5xx_count
       unreachable_count] in H.
  destruct H as (H1 & H2 & H3).
  repeat split; try lia.
  intros r link. unfold counted.
  destruct (link_passed link) as [passed|] eqn:Hp.
  - rewrite bool_decide_eq_true_2 by eauto.
    destruct (parse_link_counted r link passed Hp) as (_ & _ & _ & ->).
    rewrite count_status_deltas.
    destruct (status_code link) as [c|]; repeat case_decide;
      repeat constructor.
  - rewrite bool_decide_eq_false_2 by (intros [? ?]; discriminate).
    now apply parse_link_skipped.
Qed.

(** The aggregate test of the package: the origin and seven followed
    links. *)
Example parseFollowedLinks_package_test :
  let r := parseFollowedLinks
    [ link_result (Some true) (Some 200) (Some true);
      link_result (Some true) (Some 200) None;
      link_result (Some true) (Some 200) None;
      link_result (Some true) (Some 200) None;
      link_result (Some true) (Some 304) None;
      link_result (Some false) (Some 404) None;
      link_result (Some false) None None;
      link_result (Some false) (Some 505) None ] in
  (link_count r, passing_link_count r, failing_link_count r,
   unreachable_count r, status2xx_count r, status3xx_count r,
   status4xx_count r, status5xx_count r)
  = (8, 5, 3, 1, 4, 1, 1, 1)
  ∧ length (followed_link_results r) = 7%nat.
Proof. split; reflexivity. Qed.

(** C5, the claim as stated fails: a counted result with status code 100,
    inside 1xx to 5xx, raises [unreachable_count]. *)
Lemma unreachable_count_1xx_counterexample :
  ¬ (∀ (r : BrokenLinksResultV1) (link : SyntheticLinkResult) (c : Z),
       status_code link = Some c → 100 ≤ c ≤ 599 →
       unreachable_count (parse_link r link) = unreachable_count r).
Proof.
  intros H.
  specialize (H Report.initial (link_result (Some true) (Some 100) None) 100
                eq_refl ltac:(lia)).
  discriminate H.
Qed.

(** C5, amended.  One iteration on a result with a defined verdict raises
    exactly one of the five buckets by one: the status bucket of its class
    when the code lies in 200..599, and [unreachable_count] in every other
    case, which covers the 1xx codes, codes outside 100..599 and an absent
    code.  So a code inside 2xx to 5xx never raises [unreachable_count]. *)
Theorem parse_link_bucket (r : BrokenLinksResultV1)
    (link : SyntheticLinkResult) (passed : bool) :
  link_passed link = Some passed →
  bucket_deltas r (parse_link r link) =
    match status_code link with
    | Some c =>
        if decide (200 ≤ c ≤ 299) then [1; 0; 0; 0; 0]
        else if decide (300 ≤ c ≤ 399) then [0; 1; 0; 0; 0]
        else if decide (400 ≤ c ≤ 499) then [0; 0; 1; 0; 0]
        else if decide (500 ≤ c ≤ 599) then [0; 0; 0; 1; 0]
        else [0; 0; 0; 0; 1]
    | None => [0; 0; 0; 0; 1]
    end.
Proof.
  intros Hp.
  destruct (parse_link_counted r link passed Hp) as (_ & _ & _ & ->).
  apply count_status_deltas.
Qed.

Lemma parse_link_bucket_witness :
  bucket_deltas Report.initial
    (parse_link Report.initial (link_result (Some false) (Some 404) None))
  = [0; 0; 1; 0; 0]
  ∧ bucket_deltas Report.initial
      (parse_link Report.initial (link_result (Some true) (Some 101) None))
    = [0; 0; 0; 0; 1].
Proof.
  split.
  - apply (parse_link_bucket Report.initial
             (link_result (Some false) (Some 404) None) false).
    reflexivity.
  - apply (parse_link_bucket Report.initial
             (link_result (Some true) (Some 101) None) true).
    reflexivity.
Defined.

(** ** Link selector *)

Lemma bind_Some {A B} (c : M A) (k : A → M B) (m m' : Mem) (a : A) :
  c m = Some (a, m') → (c ≫= k) m = k a m'.
Proof. intros H. unfold mbind, M_bind. now rewrite H. Qed.

(** A new array gets a reference no array has yet. *)
Lemma alloc_Some (a : JsArray) (m : Mem) :
  ∃ r, heap m !! r = None
       ∧ alloc a m = Some (r, {| heap := <[r := a]> (heap m);
                                 random_calls := random_calls m |}).
Proof.
  exists (fresh (dom (heap m))). split; [|reflexivity].
  apply not_elem_of_dom, is_fresh.
Qed.

Lemma read_links_Some (r : nat) (elems : list LinkIntermediate) (m : Mem) :
  heap m !! r = Some (LinkArray elems) → read_links r m = Some (elems, m).
Proof. intros H. unfold read_links. now rewrite H. Qed.

Lemma read_keyed_Some (r : nat) (elems : list (LinkIntermediate * Q))
    (m : Mem) :
  heap m !! r = Some (KeyedArray elems) → read_keyed r m = Some (elems, m).
Proof. intros H. unfold read_keyed. now rewrite H. Qed.

Lemma clamp_index_le (len : nat) (i : Z) : (clamp_index len i ≤ len)%nat.
Proof. unfold clamp_index. destruct (i <? 0) eqn:E; lia. Qed.

Lemma clamp_index_nonneg (len : nat) (i : Z) :
  0 ≤ i → clamp_index len i = (Z.to_nat i `min` len)%nat.
Proof.
  intros Hi. unfold clamp_index.
  destruct (i <? 0) eqn:E; [apply Z.ltb_lt in E; lia | lia].
Qed.

(** [slice(0, end)] keeps a prefix. *)
Lemma Array_slice_0 {A} (end_ : Z) (l : list A) :
  Array_slice 0 end_ l = take (clamp_index (length l) end_) l.
Proof.
  unfold Array_slice.
  replace (clamp_index (length l) 0) with 0%nat
    by (unfold clamp_index; cbn; lia).
  now rewrite Nat.sub_0_r, drop_0.
Qed.

Lemma insert_by_sort_length x l :
  length (insert_by_sort x l) = S (length l).
Proof.
  induction l as [|y l IH]; cbn; [reflexivity|].
  destruct (Qle_bool (snd x) (snd y)); cbn; now rewrite ?IH.
Qed.

Lemma sort_by_sort_length l : length (sort_by_sort l) = length l.
Proof.
  induction l as [|x l IH]; cbn; [reflexivity|].
  unfold sort_by_sort in IH. now rewrite insert_by_sort_length, IH.
Qed.

Section SelectorProperties.

Context (Math_random : nat → Q).

(** Drawing the keys touches no array and makes one key per element. *)
Lemma attach_keys_Some (elems : list LinkIntermediate) (m : Mem) :
  ∃ keyed, attach_keys Math_random elems m
           = Some (keyed, {| heap := heap m;
                             random_calls :=
                               (random_calls m + length elems)%nat |})
           ∧ fst <$> keyed = elems.
Proof.
  revert m. induction elems as [|value rest IH]; intros m.
  - exists []. split; [|reflexivity]. cbn. unfold mret, M_ret.
    destruct m; cbn. now rewrite Nat.add_0_r.
  - cbn [attach_keys].
    destruct (IH {| heap := heap m; random_calls := S (random_calls m) |})
      as (keyed & Hk & Hfst).
    exists ((value, Math_random (random_calls m)) :: keyed). split.
    + rewrite (bind_Some _ _ m _ (Math_random (random_calls m)) eq_refl).
      rewrite (bind_Some _ _ _ _ keyed Hk).
      unfold mret, M_ret. cbn. repeat f_equal. lia.
    + cbn. now rewrite Hfst.
Qed.

(** What a call leaves behind, whatever the order mode: a new array,
    holding a prefix of some arrangement [chosen] of the input as long as
    the input, with every array that existed before unchanged. *)
Lemma shuffleAndTruncate_Some (m : Mem) (links : nat)
    (elems : list LinkIntermediate) (link_limit : Z) (order : LinkOrder) :
  heap m !! links = Some (LinkArray elems) →
  ∃ (r : nat) (m' : Mem) (chosen : list LinkIntermediate),
    shuffleAndTruncate Math_random links link_limit order m = Some (r, m')
    ∧ heap m !! r = None
    ∧ heap m' !! r
      = Some (LinkArray
                (take (clamp_index (length elems) (link_limit - 1)) chosen))
    ∧ length chosen = length elems
    ∧ (order ≠ RANDOM → chosen = elems)
    ∧ ∀ l, is_Some (heap m !! l) → heap m' !! l = heap m !! l.
Proof.
  intros Hlinks.
  assert (Hslice : ∀ (m1 : Mem) (src : nat) (chosen : list LinkIntermediate),
    heap m1 !! src = Some (LinkArray chosen) →
    ∃ r, heap m1 !! r = None
         ∧ (elems ← read_links src;
            alloc (LinkArray (Array_slice 0 (link_limit - 1) elems))) m1
           = Some (r, {| heap :=
                           <[r := LinkArray
                                    (take (clamp_index (length chosen)
                                             (link_limit - 1)) chosen)]>
                             (heap m1);
                         random_calls := random_calls m1 |})).
  { intros m1 src chosen Hsrc.
    destruct (alloc_Some
                (LinkArray (Array_slice 0 (link_limit - 1) chosen)) m1)
      as (r & Hr & Ha).
    exists r. split; [exact Hr|].
    rewrite (bind_Some _ _ m1 m1 chosen) by now apply read_links_Some.
    rewrite Ha, Array_slice_0. reflexivity. }
  destruct (alloc_Some (LinkArray elems) m) as (r1 & Hr1 & Ha1).
  set (m1 := {| heap := <[r1 := LinkArray elems]> (heap m);
                random_calls := random_calls m |}) in *.
  assert (Hunshuffled :
    ∃ (r : nat) (m' : Mem),
      (linksToFollow ← (elems ← read_links links; alloc (LinkArray elems));
       elems ← read_links linksToFollow;
       alloc (LinkArray (Array_slice 0 (link_limit - 1) elems))) m
      = Some (r, m')
      ∧ heap m !! r = None
      ∧ heap m' !! r
        = Some (LinkArray
                  (take (clamp_index (length elems) (link_limit - 1)) elems))
      ∧ ∀ l, is_Some (heap m !! l) → heap m' !! l = heap m !! l).
  { destruct (Hslice m1 r1 elems) as (r & Hr & Hs).
    { cbn. apply lookup_insert_eq. }
    cbn in Hr.
    assert (Hne : r ≠ r1) by (intros ->; now rewrite lookup_insert_eq in Hr).
    rewrite lookup_insert_ne in Hr by done.
    eexists r, _. split; [|split; [exact Hr|split]].
    - rewrite (bind_Some _ _ m m1 r1);
        [exact Hs|].
      rewrite (bind_Some _ _ m m elems) by now apply read_links_Some.
      exact Ha1.
    - cbn. apply lookup_insert_eq.
    - intros l [a Hl]. cbn.
      rewrite !lookup_insert_ne by congruence. reflexivity. }
  unfold shuffleAndTruncate. destruct order.
  - destruct Hunshuffled as (r & m' & H1 & H2 & H3 & H4).
    exists r, m', elems. repeat split; auto.
  - destruct Hunshuffled as (r & m' & H1 & H2 & H3 & H4).
    exists r, m', elems. repeat split; auto.
  - clear Hunshuffled.
    destruct (attach_keys_Some elems m1) as (keyed & Hk & Hfst).
    set (m1' := {| heap := heap m1;
                   random_calls := (random_calls m1 + length elems)%nat |})
      in *.
    destruct (alloc_Some (KeyedArray keyed) m1') as (r2 & Hr2 & Ha2).
    set (m2 := {| heap := <[r2 := KeyedArray keyed]> (heap m1');
                  random_calls := random_calls m1' |}) in *.
    set (sorted := sort_by_sort keyed).
    set (m2' := {| heap := <[r2 := KeyedArray sorted]> (heap m2);
                   random_calls := random_calls m2 |}).
    destruct (alloc_Some (LinkArray (fst <$> sorted)) m2')
      as (r3 & Hr3 & Ha3).
    set (m3 := {| heap := <[r3 := LinkArray (fst <$> sorted)]> (heap m2');
                  random_calls := random_calls m2' |}) in *.
    destruct (Hslice m3 r3 (fst <$> sorted)) as (r & Hr & Hs).
    { cbn. apply lookup_insert_eq. }
    assert (Hlen : length (fst <$> sorted) = length elems).
    { rewrite length_fmap. unfold sorted. rewrite sort_by_sort_length.
      rewrite <- Hfst. now rewrite length_fmap. }
    cbn in Hr, Hr3, Hr2.
    assert (Hne2 : r2 ≠ r1)
      by (intros ->; now rewrite lookup_insert_eq in Hr2).
    rewrite lookup_insert_ne in Hr2 by done.
    assert (Hne3 : r3 ≠ r2)
      by (intros ->; now rewrite lookup_insert_eq in Hr3).
    rewrite !(lookup_insert_ne _ r2 r3) in Hr3 by done.
    assert (Hne3' : r3 ≠ r1)
      by (intros ->; now rewrite lookup_insert_eq in Hr3).
    rewrite lookup_insert_ne in Hr3 by done.
    assert (Hne : r ≠ r3) by (intros ->; now rewrite lookup_insert_eq in Hr).
    rewrite lookup_insert_ne in Hr by done.
    assert (Hne' : r ≠ r2) by (intros ->; now rewrite lookup_insert_eq in Hr).
    rewrite !(lookup_insert_ne _ r2 r) in Hr by done.
    assert (Hne'' : r ≠ r1)
      by (intros ->; now rewrite lookup_insert_eq in Hr).
    rewrite lookup_insert_ne in Hr by done.
    eexists r, _, (fst <$> sorted).
    split; [|split; [exact Hr|split; [|split; [exact Hlen|split]]]].
    + rewrite (bind_Some _ _ m m3 r3); [exact Hs|].
      rewrite (bind_Some _ _ m m elems) by now apply read_links_Some.
      rewrite (bind_Some _ _ m m1 r1 Ha1).
      rewrite (bind_Some _ _ m1 m1 elems)
        by (apply read_links_Some; cbn; apply lookup_insert_eq).
      rewrite (bind_Some _ _ m1 m1' keyed Hk).
      rewrite (bind_Some _ _ m1' m2 r2 Ha2).
      rewrite (bind_Some _ _ m2 m2 keyed)
        by (apply read_keyed_Some; cbn; apply lookup_insert_eq).
      rewrite (bind_Some _ _ m2 m2' tt eq_refl).
      rewrite (bind_Some _ _ m2' m2' sorted)
        by (apply read_keyed_Some; cbn; apply lookup_insert_eq).
      exact Ha3.
    + cbn. rewrite lookup_insert_eq, Hlen. reflexivity.
    + intros Habs. now contradict Habs.
    + intros l [a Hl]. cbn.
      rewrite !lookup_insert_ne by congruence. reflexivity.
Qed.

End SelectorProperties.

(** C6.  Called on an array of [k] links with a limit [L ≥ 1], in any order
    mode, the selector returns an array of [min k (L - 1)] links. *)
Theorem shuffleAndTruncate_length (Math_random : nat → Q) (m : Mem)
    (links : nat) (elems : list LinkIntermediate) (link_limit : Z)
    (order : LinkOrder) :
  heap m !! links = Some (LinkArray elems) →
  1 ≤ link_limit →
  ∃ (r : nat) (m' : Mem) (out : list LinkIntermediate),
    shuffleAndTruncate Math_random links link_limit order m = Some (r, m')
    ∧ heap m' !! r = Some (LinkArray out)
    ∧ Z.of_nat (length out)
      = Z.min (Z.of_nat (length elems)) (link_limit - 1).
Proof.
  intros Hlinks Hlimit.
  destruct (shuffleAndTruncate_Some Math_random m links elems link_limit
              order Hlinks)
    as (r & m' & chosen & Hrun & _ & Hout & Hlen & _).
  exists r, m', (take (clamp_index (length elems) (link_limit - 1)) chosen).
  split; [exact Hrun|split; [exact Hout|]].
  rewrite length_take, Hlen, clamp_index_nonneg by lia. lia.
Qed.

Lemma shuffleAndTruncate_length_witness :
  ∃ (r : nat) (m' : Mem) (out : list LinkIntermediate),
    shuffleAndTruncate (λ n, inject_Z (Z.of_nat (3 - n))) 0 3 RANDOM
      three_links
    = Some (r, m')
    ∧ heap m' !! r = Some (LinkArray out)
    ∧ Z.of_nat (length out) = Z.min (Z.of_nat 3) (3 - 1).
Proof.
  apply (shuffleAndTruncate_length (λ n, inject_Z (Z.of_nat (3 - n)))
           three_links 0 [link "link1"; link "link2"; link "link3"] 3 RANDOM).
  - reflexivity.
  - lia.
Defined.

(** With keys 3, 2, 1 drawn for three links and a limit of 3, the random
    mode returns the last two links, reversed. *)
Example shuffleAndTruncate_RANDOM_example :
  (r ← shuffleAndTruncate (λ n, inject_Z (Z.of_nat (3 - n))) 0 3 RANDOM;
   read_links r) three_links
  ≫= (λ x, Some (fst x)) = Some [link "link3"; link "link2"].
Proof. vm_compute. reflexivity. Qed.

(** C7.  In mode [FIRST_N], for any limit, the array returned is new and
    holds a prefix of the input, in the input's order: the first
    [clamp_index k (L - 1)] links, which for [L ≥ 1] are the first
    [min (L - 1) k].  The input array, and every other array that existed
    before the call, holds afterwards what it held before. *)
Theorem shuffleAndTruncate_FIRST_N (Math_random : nat → Q) (m : Mem)
    (links : nat) (elems : list LinkIntermediate) (link_limit : Z) :
  heap m !! links = Some (LinkArray elems) →
  ∃ (r : nat) (m' : Mem),
    shuffleAndTruncate Math_random links link_limit FIRST_N m = Some (r, m')
    ∧ heap m' !! r
      = Some (LinkArray
                (take (clamp_index (length elems) (link_limit - 1)) elems))
    ∧ (1 ≤ link_limit →
       clamp_index (length elems) (link_limit - 1)
       = (Z.to_nat (link_limit - 1) `min` length elems)%nat)
    ∧ r ≠ links
    ∧ heap m' !! links = Some (LinkArray elems)
    ∧ ∀ l, is_Some (heap m !! l) → heap m' !! l = heap m !! l.
Proof.
  intros Hlinks.
  destruct (shuffleAndTruncate_Some Math_random m links elems link_limit
              FIRST_N Hlinks)
    as (r & m' & chosen & Hrun & Hnew & Hout & _ & Hsame & Hkept).
  rewrite (Hsame ltac:(discriminate)) in Hout.
  exists r, m'. repeat split.
  - exact Hrun.
  - exact Hout.
  - intros Hlimit. apply clamp_index_nonneg. lia.
  - intros ->. congruence.
  - rewrite Hkept by eauto. exact Hlinks.
  - exact Hkept.
Qed.

Lemma shuffleAndTruncate_FIRST_N_witness :
  ∃ (r : nat) (m' : Mem),
    shuffleAndTruncate (λ _, 0%Q) 0 3 FIRST_N three_links = Some (r, m')
    ∧ heap m' !! r = Some (LinkArray [link "link1"; link "link2"])
    ∧ (1 ≤ 3 → clamp_index 3 (3 - 1) = (Z.to_nat (3 - 1) `min` 3)%nat)
    ∧ r ≠ 0%nat
    ∧ heap m' !! 0%nat
      = Some (LinkArray [link "link1"; link "link2"; link "link3"])
    ∧ ∀ l, is_Some (heap three_links !! l) →
           heap m' !! l = heap three_links !! l.
Proof.
  apply (shuffleAndTruncate_FIRST_N (λ _, 0%Q) three_links 0
           [link "link1"; link "link2"; link "link3"] 3).
  reflexivity.
Defined.

(** ** Retrying fetcher *)

Section FetcherProperties.

Context {World : Type}
        (page_goto : string → Z → World → GotoResult * World)
        (now_iso : World → string).

Lemma fetches_length target_uri timeout n w :
  length (fst (fetches page_goto now_iso target_uri timeout n w)) = n.
Proof.
  revert w. induction n as [|n IH]; intros w; cbn; [reflexivity|].
  now rewrite IH.
Qed.

(** One unfolding of the loop: test, then body and loop again. *)
Lemma navigate_loop_step (target_uri : string) (timeout : Z)
    (expected : ResponseStatusCode) (retriesRemaining : Z) (passed : bool)
    (output : CommonResponseProps) (log : list CommonResponseProps)
    (w : World) :
  navigate_loop page_goto now_iso target_uri timeout expected
    retriesRemaining passed output log w
  = if (0 <? retriesRemaining) && negb passed
    then navigate_loop page_goto now_iso target_uri timeout expected
           (retriesRemaining - 1)
           (attempt_passed expected
              (fst (fetchLink page_goto now_iso target_uri timeout w)))
           (fst (fetchLink page_goto now_iso target_uri timeout w))
           (log ++ [fst (fetchLink page_goto now_iso target_uri timeout w)])
           (snd (fetchLink page_goto now_iso target_uri timeout w))
    else navigate_return retriesRemaining passed output log w.
Proof.
  match goal with
  | |- _ = if _ then ?again else _ => set (rec := again)
  end.
  simp navigate_loop.
  destruct (Z_lt_dec 0 retriesRemaining) as [Hpos|Hneg]; cbn.
  - replace (0 <? retriesRemaining) with true
      by (symmetry; apply Z.ltb_lt; lia).
    destruct passed; reflexivity.
  - replace (0 <? retriesRemaining) with false
      by (symmetry; apply Z.ltb_nlt; lia).
    reflexivity.
Qed.

(** The loop from any state of its variables: it makes [n] calls, none
    when it starts with [passed] set or no retry left, never more than
    [retriesRemaining]; it goes on exactly as long as the outputs do not
    pass; and it returns what the last call gave, or, without any call,
    what it started with. *)
Lemma navigate_loop_spec (target_uri : string) (timeout : Z)
    (expected : ResponseStatusCode) (fuel : nat) :
  ∀ (retriesRemaining : Z) (passed : bool) (output : CommonResponseProps)
    (log : list CommonResponseProps) (w : World),
    Z.to_nat retriesRemaining = fuel →
    ∃ n : nat,
      navigate_loop page_goto now_iso target_uri timeout expected
        retriesRemaining passed output log w
      = (let outs := fst (fetches page_goto now_iso target_uri timeout n w) in
         navigate_return (retriesRemaining - Z.of_nat n)
           (from_option (attempt_passed expected) passed (last outs))
           (default output (last outs))
           (log ++ outs)
           (snd (fetches page_goto now_iso target_uri timeout n w)))
      ∧ Z.of_nat n ≤ Z.max retriesRemaining 0
      ∧ (passed = true → n = 0%nat)
      ∧ (passed = false → 0 < retriesRemaining → (0 < n)%nat)
      ∧ (∀ (i : nat) (out : CommonResponseProps),
           fst (fetches page_goto now_iso target_uri timeout n w) !! i
           = Some out →
           (S i < n)%nat → attempt_passed expected out = false)
      ∧ (∀ out : CommonResponseProps,
           last (fst (fetches page_goto now_iso target_uri timeout n w))
           = Some out →
           attempt_passed expected out = false →
           Z.of_nat n = retriesRemaining).
Proof.
  induction fuel as [|fuel IH];
    intros retriesRemaining passed output log w Hfuel;
    rewrite navigate_loop_step.
  - replace (0 <? retriesRemaining) with false
      by (symmetry; apply Z.ltb_nlt; lia).
    exists 0%nat. cbn. rewrite app_nil_r, Z.sub_0_r.
    repeat split; try lia; try done.
  - replace (0 <? retriesRemaining) with true
      by (symmetry; apply Z.ltb_lt; lia).
    destruct passed; cbn [andb negb].
    + exists 0%nat. cbn. rewrite app_nil_r, Z.sub_0_r.
      repeat split; try lia; try done.
    + set (out := fetchLink page_goto now_iso target_uri timeout w).
      destruct (IH (retriesRemaining - 1)
                  (attempt_passed expected (fst out)) (fst out)
                  (log ++ [fst out]) (snd out) ltac:(lia))
        as (n & Hrun & Hn & Hp & Hq & Hbefore & Hlast).
      exists (S n). cbn [fetches]. fold out. cbn [fst snd].
      split; [|split; [lia|split; [discriminate|split; [lia|split]]]].
      * rewrite Hrun. cbn zeta. rewrite <- app_assoc. cbn [app].
        replace (retriesRemaining - 1 - Z.of_nat n)
          with (retriesRemaining - Z.of_nat (S n)) by lia.
        destruct (fst (fetches page_goto now_iso target_uri timeout n
                         (snd out)))
          as [|o outs]; [reflexivity|].
        rewrite last_cons_cons.
        destruct (last (o :: outs)) eqn:E; [reflexivity|].
        apply last_None in E. discriminate E.
      * intros [|i] o Hi Hlt.
        -- cbn in Hi. injection Hi as <-.
           destruct (attempt_passed expected (fst out)) eqn:E; [|reflexivity].
           rewrite (Hp eq_refl) in Hlt. lia.
        -- cbn in Hi. apply (Hbefore i o Hi). lia.
      * intros o Ho Hfail.
        destruct (fst (fetches page_goto now_iso target_uri timeout n
                         (snd out)))
          as [|o' outs] eqn:Houts.
        -- cbn in Ho. injection Ho as <-.
           assert (n = 0%nat) as ->.
           { pose proof (fetches_length target_uri timeout n (snd out)) as Hl.
             rewrite Houts in Hl. cbn in Hl. lia. }
           destruct (Z_lt_dec 0 (retriesRemaining - 1)) as [Hmore|Hnone].
           ++ specialize (Hq Hfail Hmore). lia.
           ++ lia.
        -- rewrite last_cons_cons in Ho.
           specialize (Hlast o Ho Hfail). lia.
Qed.

(** C2.  With [max_retries = R ≥ 0], [navigate] calls [fetchLink] [n]
    times in a row with [1 ≤ n ≤ R + 1]; every call before the last gave
    an output that does not pass, so the loop stops at the first passing
    one; [passed] is the verdict on the last output and [responseOrError]
    is the last output's; and if the result did not pass, all [R + 1]
    calls were made. *)
Theorem navigate_retries (link : LinkIntermediate)
    (options : BrokenLinkCheckerOptions) (expected : ResponseStatusCode)
    (w : World) :
  0 ≤ max_retries options →
  ∃ (n : nat) (timeout : Z) (last_output : CommonResponseProps),
    1 ≤ Z.of_nat n ≤ max_retries options + 1
    ∧ fetched (navigate page_goto now_iso link options expected w)
      = fst (fetches page_goto now_iso (li_target_uri link) timeout n w)
    ∧ world (navigate page_goto now_iso link options expected w)
      = snd (fetches page_goto now_iso (li_target_uri link) timeout n w)
    ∧ (∀ (i : nat) (out : CommonResponseProps),
         fetched (navigate page_goto now_iso link options expected w) !! i
         = Some out →
         (S i < n)%nat → attempt_passed expected out = false)
    ∧ last (fetched (navigate page_goto now_iso link options expected w))
      = Some last_output
    ∧ nr_passed
        (returned (navigate page_goto now_iso link options expected w))
      = attempt_passed expected last_output
    ∧ nr_responseOrError
        (returned (navigate page_goto now_iso link options expected w))
      = responseOrError last_output
    ∧ nr_retriesRemaining
        (returned (navigate page_goto now_iso link options expected w))
      = max_retries options + 1 - Z.of_nat n
    ∧ (nr_passed
         (returned (navigate page_goto now_iso link options expected w))
       = false →
       Z.of_nat n = max_retries options + 1).
Proof.
  intros HR. unfold navigate.
  set (timeout := default (link_timeout_millis options) _).
  set (start := {| responseOrError := RUndefined;
                   linkStartTime := None; linkEndTime := None |}).
  destruct (navigate_loop_spec (li_target_uri link) timeout expected
              (Z.to_nat (max_retries options + 1))
              (max_retries options + 1) false start [] w eq_refl)
    as (n & Hrun & Hn & _ & Hq & Hbefore & Hlast).
  specialize (Hq eq_refl ltac:(lia)).
  pose proof (fetches_length (li_target_uri link) timeout n w) as Hlen.
  destruct (last (fst (fetches page_goto now_iso (li_target_uri link)
                         timeout n w)))
    as [last_output|] eqn:El.
  2: { apply last_None in El. rewrite El in Hlen. cbn in Hlen. lia. }
  exists n, timeout, last_output.
  rewrite Hrun. cbn zeta. rewrite El. cbn.
  repeat split; try lia.
  - exact Hbefore.
  - exact El.
  - intros Hfail. exact (Hlast last_output eq_refl Hfail).
Qed.

End FetcherProperties.

(** Two retries allowed, the second attempt passes: two calls, one retry
    left, and the response returned is the 200. *)
Example navigate_flaky_page :
  let run := navigate flaky_page (λ _, "") (link "https://example.com/a")
               (retry_options 2) expect_2xx 0%nat in
  (responseOrError <$> fetched run, nr_responseOrError (returned run),
   nr_passed (returned run), nr_retriesRemaining (returned run), world run)
  = ([RHTTPResponse 404; RHTTPResponse 200], RHTTPResponse 200, true, 1, 2%nat).
Proof. reflexivity. Qed.

Lemma navigate_retries_witness :
  ∃ (n : nat) (timeout : Z) (last_output : CommonResponseProps),
    1 ≤ Z.of_nat n ≤ 2 + 1
    ∧ fetched (navigate flaky_page (λ _, "") (link "a") (retry_options 2)
                 expect_2xx 0%nat)
      = fst (fetches flaky_page (λ _, "") "a" timeout n 0%nat)
    ∧ world (navigate flaky_page (λ _, "") (link "a") (retry_options 2)
               expect_2xx 0%nat)
      = snd (fetches flaky_page (λ _, "") "a" timeout n 0%nat)
    ∧ (∀ (i : nat) (out : CommonResponseProps),
         fetched (navigate flaky_page (λ _, "") (link "a") (retry_options 2)
                    expect_2xx 0%nat) !! i
         = Some out →
         (S i < n)%nat → attempt_passed expect_2xx out = false)
    ∧ last (fetched (navigate flaky_page (λ _, "") (link "a")
                       (retry_options 2) expect_2xx 0%nat))
      = Some last_output
    ∧ nr_passed (returned (navigate flaky_page (λ _, "") (link "a")
                             (retry_options 2) expect_2xx 0%nat))
      = attempt_passed expect_2xx last_output
    ∧ nr_responseOrError
        (returned (navigate flaky_page (λ _, "") (link "a")
                     (retry_options 2) expect_2xx 0%nat))
      = responseOrError last_output
    ∧ nr_retriesRemaining
        (returned (navigate flaky_page (λ _, "") (link "a")
                     (retry_options 2) expect_2xx 0%nat))
      = 2 + 1 - Z.of_nat n
    ∧ (nr_passed (returned (navigate flaky_page (λ _, "") (link "a")
                              (retry_options 2) expect_2xx 0%nat))
       = false →
       Z.of_nat n = 2 + 1).
Proof.
  apply (navigate_retries flaky_page (λ _, "") (link "a") (retry_options 2)
           expect_2xx 0%nat).
  cbn. lia.
Defined.


(** ** Deadline-bounded batch runner *)

Module BatchProperties.
Import Batch.

Local Ltac crush_step :=
  repeat match goal with
         | |- context [match ?x with _ => _ end] => destruct x eqn:?
         | H : context [match ?x with _ => _ end] |- _ => destruct x eqn:?
         end;
  cbn in *; try congruence; auto.

Lemma step_open_inv (s : State) (e : Event) :
  open_inv s → open_inv (step s e).
Proof.
  unfold open_inv, step, loop_head, worker_returns, worker_throws,
    timer_fires, push_result, race_won, set_worker.
  intros Hinv. destruct s as [reached followed timer st wk log]. cbn in *.
  destruct e, wk; cbn; crush_step.
Qed.

Lemma run_open_inv (s : State) (events : list Event) :
  open_inv s → open_inv (run s events).
Proof.
  revert s. induction events as [|e events IH]; intros s Hs; [exact Hs|].
  apply IH, step_open_inv, Hs.
Qed.

Lemma checkLinks_open_inv (links : list LinkIntermediate) :
  open_inv (checkLinks links).
Proof. intros _. split; reflexivity. Qed.

(** Once expired, a step starts no link check and leaves the promise as it
    is settled. *)
Lemma step_expired (s : State) (e : Event) :
  expired s →
  expired (step s e)
  ∧ started (step s e) = started s
  ∧ settled (step s e) = settled s.
Proof.
  unfold expired, step, loop_head, worker_returns, worker_throws,
    timer_fires, push_result, race_won, set_worker.
  destruct s as [reached followed timer st wk log]. cbn.
  intros [-> [o ->]].
  destruct e, wk; cbn; crush_step.
Qed.

Lemma run_expired (s : State) (events : list Event) :
  expired s →
  started (run s events) = started s
  ∧ settled (run s events) = settled s.
Proof.
  revert s. induction events as [|e events IH]; intros s Hs; [done|].
  destruct (step_expired s e Hs) as (He & Hst & Hse).
  destruct (IH (step s e) He) as (IH1 & IH2).
  cbn. unfold run in *. rewrite IH1, IH2. auto.
Qed.

(** What one event adds to the shared array: the result of a link check
    that ends while the worker waits for it, and nothing in any other
    case. *)
Lemma step_followed_links (s : State) (e : Event) :
  followed_links (step s e) = followed_links s ++ gathered s [e].
Proof.
  unfold step, loop_head, worker_returns, worker_throws, timer_fires,
    push_result, race_won, set_worker, awaits_checkLink.
  destruct s as [reached followed timer st wk log].
  destruct e, wk; cbn; crush_step; now rewrite app_nil_r.
Qed.

Lemma gathered_cons (s : State) (e : Event) (events : list Event) :
  gathered s (e :: events) = gathered s [e] ++ gathered (step s e) events.
Proof. destruct e; cbn; try reflexivity. now destruct (awaits_checkLink s). Qed.

(** The shared array after a run: what it held, then the results of the
    link checks that ended in the run, in order. *)
Lemma run_followed_links (s : State) (events : list Event) :
  followed_links (run s events) = followed_links s ++ gathered s events.
Proof.
  revert s. induction events as [|e events IH]; intros s.
  - cbn. now rewrite app_nil_r.
  - rewrite gathered_cons, app_assoc, <- step_followed_links. apply IH.
Qed.

End BatchProperties.

Section Deadline.

Import Batch BatchProperties.

(** C1.  Take any run of [checkLinks] in which the deadline timer goes off
    while the returned promise is still open.  At that moment the
    promise is fulfilled, not rejected, with the results gathered so far:
    the results of exactly the link checks that ended before the timer
    went off, in the order in which they ended.  The flag
    [timeLimitReached] goes up; whatever happens afterwards, no further
    link check is started and the promise stays fulfilled with those
    results. *)
Theorem checkLinks_deadline (links : list LinkIntermediate)
    (before after : list Event) :
  settled (run (checkLinks links) before) = None →
  settled (step (run (checkLinks links) before) TimerFired)
  = Some (Fulfilled (followed_links (run (checkLinks links) before)))
  ∧ followed_links (run (checkLinks links) before)
    = gathered (checkLinks links) before
  ∧ timeLimitReached (step (run (checkLinks links) before) TimerFired)
    = true
  ∧ started (run (step (run (checkLinks links) before) TimerFired) after)
    = started (run (checkLinks links) before)
  ∧ settled (run (step (run (checkLinks links) before) TimerFired) after)
    = Some (Fulfilled (followed_links (run (checkLinks links) before))).
Proof.
  intros Hopen.
  destruct (run_open_inv (checkLinks links) before
              (checkLinks_open_inv links) Hopen) as (Htimer & Hflag).
  set (s := run (checkLinks links) before) in *.
  assert (Hfire : step s TimerFired
                  = race_won false
                      {| timeLimitReached := timeLimitReached s;
                         followed_links := followed_links s;
                         timeLimitTimeout := false;
                         settled := settled s;
                         worker := worker s;
                         started := started s |}).
  { unfold step, timer_fires. rewrite Htimer. cbn. now rewrite Hopen. }
  assert (Hexp : expired (step s TimerFired)).
  { rewrite Hfire. split; cbn; eauto. }
  destruct (run_expired (step s TimerFired) after Hexp) as (Hst & Hse).
  rewrite Hst, Hse, Hfire. cbn.
  repeat split; try reflexivity.
  exact (run_followed_links (checkLinks links) before).
Qed.

(** Three links; the deadline passes while the second is being checked.
    The promise is fulfilled with the first result alone; the second
    check still ends and its result lands in the shared array, and the
    third link is never started. *)
Example checkLinks_deadline_mid_check :
  let s := run (checkLinks [link "a"; link "b"; link "c"])
             [ PageOpened;
               LinkChecked (link_result (Some true) (Some 200) None);
               PageReset;
               TimerFired;
               LinkChecked (link_result (Some false) (Some 404) None);
               PageReset ] in
  settled s = Some (Fulfilled [link_result (Some true) (Some 200) None])
  ∧ started s = [link "a"; link "b"]
  ∧ length (followed_links s) = 2%nat
  ∧ worker s = WorkerReturned false.
Proof. repeat split. Qed.

Lemma checkLinks_deadline_witness :
  settled (step (run (checkLinks [link "a"; link "b"; link "c"])
                   [ PageOpened;
                     LinkChecked (link_result (Some true) (Some 200) None);
                     PageReset ])
             TimerFired)
  = Some (Fulfilled
            (followed_links
               (run (checkLinks [link "a"; link "b"; link "c"])
                  [ PageOpened;
                    LinkChecked (link_result (Some true) (Some 200) None);
                    PageReset ])))
  ∧ followed_links
      (run (checkLinks [link "a"; link "b"; link "c"])
         [ PageOpened;
           LinkChecked (link_result (Some true) (Some 200) None);
           PageReset ])
    = [link_result (Some true) (Some 200) None]
  ∧ timeLimitReached
      (step (run (checkLinks [link "a"; link "b"; link "c"])
               [ PageOpened;
                 LinkChecked (link_result (Some true) (Some 200) None);
                 PageReset ])
         TimerFired)
    = true
  ∧ started
      (run (step (run (checkLinks [link "a"; link "b"; link "c"])
                    [ PageOpened;
                      LinkChecked (link_result (Some true) (Some 200) None);
                      PageReset ])
              TimerFired)
         [ LinkChecked (link_result (Some false) (Some 404) None);
           PageReset ])
    = started
        (run (checkLinks [link "a"; link "b"; link "c"])
           [ PageOpened;
             LinkChecked (link_result (Some true) (Some 200) None);
             PageReset ])
  ∧ settled
      (run (step (run (checkLinks [link "a"; link "b"; link "c"])
                    [ PageOpened;
                      LinkChecked (link_result (Some true) (Some 200) None);
                      PageReset ])
              TimerFired)
         [ LinkChecked (link_result (Some false) (Some 404) None);
           PageReset ])
    = Some (Fulfilled
              (followed_links
                 (run (checkLinks [link "a"; link "b"; link "c"])
                    [ PageOpened;
                      LinkChecked (link_result (Some true) (Some 200) None);
                      PageReset ]))).
Proof.
  apply (checkLinks_deadline [link "a"; link "b"; link "c"]
           [ PageOpened;
             LinkChecked (link_result (Some true) (Some 200) None);
             PageReset ]
           [ LinkChecked (link_result (Some false) (Some 404) None);
             PageReset ]).
  reflexivity.
Defined.

End Deadline.

(** ** Report assembly *)

Example toISOString_examples :
  Date.toISOString 0 = "1970-01-01T00:00:00.000Z"
  ∧ Date.toISOString 951782400000 = "2000-02-29T00:00:00.000Z"
  ∧ Date.toISOString 978307199999 = "2000-12-31T23:59:59.999Z"
  ∧ Date.toISOString 1704067200000 = "2024-01-01T00:00:00.000Z"
  ∧ Date.toISOString 1709251199999 = "2024-02-29T23:59:59.999Z"
  ∧ Date.toISOString 1709251200000 = "2024-03-01T00:00:00.000Z".
Proof. repeat split; vm_compute; reflexivity. Qed.

(** [createSyntheticResult] reports the clock as it reads it: when the run
    start it is given is that very reading, the two times are the same. *)
Lemma createSyntheticResult_end_time_is_clock
    (toISOString : Z → string) (path_join : list string → string)
    (now : Z) (metadata : gmap string string)
    (options : BrokenLinkCheckerOptions)
    (followed_links : list SyntheticLinkResult)
    (storageParams : StorageParameters) (errors : list BaseError) :
  end_time (createSyntheticResult toISOString path_join now
              (toISOString now) metadata options followed_links
              storageParams errors)
  = start_time (createSyntheticResult toISOString path_join now
                  (toISOString now) metadata options followed_links
                  storageParams errors).
Proof. reflexivity. Qed.

(** C8, at the failing input.  Called at 2024-01-01T00:00:00.000Z with
    that same instant as the run start, [createSyntheticResult] reports an
    end time equal to the start time, while [getGenericSyntheticResult], in
    the same situation, reports an end time one millisecond later. *)
Theorem createSyntheticResult_same_millisecond
    (path_join : list string → string) (metadata : gmap string string)
    (options : BrokenLinkCheckerOptions)
    (followed_links : list SyntheticLinkResult)
    (storageParams : StorageParameters) (errors : list BaseError) :
  start_time (createSyntheticResult Date.toISOString path_join 1704067200000
                "2024-01-01T00:00:00.000Z" metadata options followed_links
                storageParams errors)
  = "2024-01-01T00:00:00.000Z"
  ∧ end_time (createSyntheticResult Date.toISOString path_join 1704067200000
                "2024-01-01T00:00:00.000Z" metadata options followed_links
                storageParams errors)
    = "2024-01-01T00:00:00.000Z"
  ∧ end_time (getGenericSyntheticResult Date.toISOString 1704067200000
                metadata "2024-01-01T00:00:00.000Z" "")
    = "2024-01-01T00:00:00.001Z".
Proof. repeat split; vm_compute; reflexivity. Qed.

(** ** Object names *)

Lemma underscore_allowed :
  JsString.invalidCharacter JsString.underscore = false
  ∧ JsString.whiteSpace JsString.underscore = false.
Proof. split; reflexivity. Qed.

Lemma replace_invalidCharacters_valid (s : JsString.t) (c : N) :
  c ∈ JsString.replace_invalidCharacters s →
  JsString.invalidCharacter c = false.
Proof.
  unfold JsString.replace_invalidCharacters.
  intros (d & -> & _)%list_elem_of_fmap.
  destruct (JsString.invalidCharacter d) eqn:E; [reflexivity | exact E].
Qed.

Lemma trimStart_elem_of (s : JsString.t) (c : N) :
  c ∈ JsString.trimStart s → c ∈ s.
Proof.
  induction s as [|d s IH]; cbn; [done|].
  destruct (JsString.whiteSpace d); [|done].
  intros H. right. now apply IH.
Qed.

Lemma trim_elem_of (s : JsString.t) (c : N) : c ∈ JsString.trim s → c ∈ s.
Proof.
  unfold JsString.trim, JsString.trimEnd.
  rewrite elem_of_reverse. intros H%trimStart_elem_of.
  rewrite elem_of_reverse in H. now apply trimStart_elem_of.
Qed.

Lemma replace_whiteSpaceRuns_elem_of (in_run : bool) (s : JsString.t) (c : N) :
  c ∈ JsString.replace_whiteSpaceRuns in_run s →
  c = JsString.underscore ∨ (c ∈ s ∧ JsString.whiteSpace c = false).
Proof.
  revert in_run. induction s as [|d s IH]; intros in_run; cbn.
  - intros H. inversion H.
  - destruct (JsString.whiteSpace d) eqn:E.
    + destruct in_run.
      * intros [->|[? ?]]%IH; [now left|right; split; [now right|done]].
      * intros [->|[->|[? ?]]%IH]%elem_of_cons;
          [now left|now left|right; split; [now right|done]].
    + intros [->|[->|[? ?]]%IH]%elem_of_cons.
      * right. split; [now left|done].
      * now left.
      * right. split; [now right|done].
Qed.

(** Whatever the input, no code unit of the result is in the class of
    [invalidCharactersRegex], and none is white space. *)
Lemma sanitizeObjectName_characters (inputString : option JsString.t) (c : N) :
  c ∈ sanitizeObjectName inputString →
  JsString.invalidCharacter c = false ∧ JsString.whiteSpace c = false.
Proof.
  assert (Hu : ∀ c, c ∈ JsString.of_string "_" →
            JsString.invalidCharacter c = false
            ∧ JsString.whiteSpace c = false).
  { intros d Hd. apply list_elem_of_singleton in Hd as ->.
    exact underscore_allowed. }
  unfold sanitizeObjectName. destruct inputString as [s|]; [|apply Hu].
  destruct (_ || _); [apply Hu|].
  intros [->|[Hc Hw]]%replace_whiteSpaceRuns_elem_of;
    [exact underscore_allowed|].
  split; [|exact Hw].
  apply trim_elem_of in Hc. now apply replace_invalidCharacters_valid in Hc.
Qed.

(** The cases the package's tests check; [unit n] is the character
    numbered [n]: 34 the double quote, 13 the carriage return, 10 the line
    feed, 9 the tab. *)
Example sanitizeObjectName_package_tests :
  let unit (n : nat) := String (Ascii.ascii_of_nat n) "" in
  sanitizeObjectName
    (Some (JsString.of_string
             ("test/@#$%^&*()/_+-=[]{};':" +:+ unit 34%nat +:+ "|,.<>/?"
              +:+ unit 13%nat +:+ unit 10%nat +:+ unit 9%nat)))
  = JsString.of_string "test_@_$%^&_()__+-=__{};'___,.______"
  ∧ sanitizeObjectName
      (Some (JsString.of_string ".well-known/acme-challenge/test"))
    = JsString.of_string "_test"
  ∧ sanitizeObjectName (Some (JsString.of_string "."))
    = JsString.of_string "_"
  ∧ sanitizeObjectName (Some (JsString.of_string ".."))
    = JsString.of_string "_"
  ∧ sanitizeObjectName None = JsString.of_string "_"
  ∧ sanitizeObjectName (Some (JsString.of_string "  test name  "))
    = JsString.of_string "test_name".
Proof. repeat split; vm_compute; reflexivity. Qed.

(** C10, at the failing input.  For the text made of a space and a full
    stop the result is the single full stop, and for a space and two full
    stops it is the two full stops. *)
Theorem sanitizeObjectName_padded_dot :
  sanitizeObjectName (Some (JsString.of_string " ."))
  = JsString.of_string "."
  ∧ sanitizeObjectName (Some (JsString.of_string " .."))
    = JsString.of_string "..".
Proof. split; vm_compute; reflexivity. Qed.

(** * Further properties *)

(** ** Result aggregator: what each field of the report holds *)

Lemma filter_cons_bool {A} (f : A → bool) (x : A) (l : list A) :
  filter f (x :: l) = if f x then x :: filter f l else filter f l.
Proof.
  destruct (f x) eqn:E.
  - apply filter_cons_True. rewrite E. exact I.
  - apply filter_cons_False. rewrite E. exact id.
Qed.

Lemma count_of_cons {A} (f : A → bool) (x : A) (l : list A) :
  count_of f (x :: l) = (if f x then 1 else 0) + count_of f l.
Proof.
  unfold count_of. destruct (f x) eqn:E.
  - rewrite filter_cons_True by (rewrite E; exact I).
    cbn [length]. lia.
  - rewrite filter_cons_False by (rewrite E; exact id). lia.
Qed.

(** The switch leaves the two result fields alone. *)
Lemma count_status_results (code : option Z) (r : BrokenLinksResultV1) :
  followed_link_results (count_status code r) = followed_link_results r
  ∧ origin_link_result (count_status code r) = origin_link_result r.
Proof.
  unfold count_status. generalize (status_hundreds code). intros q.
  repeat match goal with
         | |- context [match ?x with _ => _ end] => destruct x
         end; cbn; auto.
Qed.

(** Where one iteration puts the result it visits. *)
Lemma parse_link_results (r : BrokenLinksResultV1)
    (link : SyntheticLinkResult) :
  followed_link_results (parse_link r link)
  = followed_link_results r
    ++ (if counted link && negb (origin_result link) then [link] else [])
  ∧ origin_link_result (parse_link r link)
    = (if counted link && origin_result link then Some link
       else origin_link_result r).
Proof.
  unfold parse_link, counted, origin_result.
  destruct (link_passed link) as [passed|] eqn:Hp.
  - rewrite bool_decide_eq_true_2 by eauto.
    match goal with
    | |- context [count_status ?c ?x] =>
        destruct (count_status_results c x) as [-> ->]
    end.
    destruct (is_origin link) as [[|]|], passed; cbn;
      case_bool_decide; try congruence; cbn;
      rewrite ?app_nil_r; auto.
  - rewrite bool_decide_eq_false_2 by (intros [? ?]; discriminate).
    cbn. now rewrite app_nil_r.
Qed.

Lemma foldl_parse_link_results (links : list SyntheticLinkResult)
    (r : BrokenLinksResultV1) :
  followed_link_results (foldl parse_link r links)
  = followed_link_results r
    ++ filter (λ l, counted l && negb (origin_result l)) links
  ∧ origin_link_result (foldl parse_link r links)
    = from_option Some (origin_link_result r)
        (last (filter (λ l, counted l && origin_result l) links)).
Proof.
  revert r. induction links as [|link links IH]; intros r; cbn [foldl].
  - cbn. now rewrite app_nil_r.
  - destruct (IH (parse_link r link)) as [IH1 IH2].
    destruct (parse_link_results r link) as [H1 H2].
    rewrite IH1, IH2, H1, H2. clear IH IH1 IH2 H1 H2.
    rewrite !filter_cons_bool.
    destruct (counted link), (origin_result link); cbn [andb negb].
    + split; [now rewrite app_nil_r|].
      destruct (filter _ links) as [|x xs] eqn:E; [reflexivity|].
      rewrite last_cons_cons.
      destruct (last (x :: xs)) eqn:El; [reflexivity|].
      apply last_None in El. discriminate El.
    + split; [now rewrite <- app_assoc|reflexivity].
    + split; [now rewrite app_nil_r|reflexivity].
    + split; [now rewrite app_nil_r|reflexivity].
Qed.

(** X1.  The report lists as followed links exactly the results that have
    a verdict and are not marked as origin, in input order; its origin
    result is the last result with a verdict that is marked as origin, if
    any; and [link_count] counts both kinds. *)
Theorem parseFollowedLinks_results
    (followed_links : list SyntheticLinkResult) :
  followed_link_results (parseFollowedLinks followed_links)
  = filter (λ l, counted l && negb (origin_result l)) followed_links
  ∧ origin_link_result (parseFollowedLinks followed_links)
    = last (filter (λ l, counted l && origin_result l) followed_links)
  ∧ link_count (parseFollowedLinks followed_links)
    = Z.of_nat (length (followed_link_results
                          (parseFollowedLinks followed_links)))
      + count_of (λ l, counted l && origin_result l) followed_links.
Proof.
  destruct (foldl_parse_link_results followed_links Report.initial)
    as [H1 H2].
  fold (parseFollowedLinks followed_links) in H1, H2. cbn in H1, H2.
  split; [exact H1|split].
  - rewrite H2. now destruct (last _).
  - rewrite H1.
    destruct (foldl_parse_link_totals followed_links Report.initial)
      as (Hcount & _ & _).
    fold (parseFollowedLinks followed_links) in Hcount.
    cbn zeta in Hcount. rewrite Hcount. cbn [Report.initial link_count].
    unfold count_of. clear.
    induction followed_links as [|l ls IH]; [reflexivity|].
    rewrite !filter_cons_bool.
    destruct (counted l), (origin_result l); cbn [andb negb length]; lia.
Qed.

(** What one iteration adds to each counter. *)
Lemma parse_link_counters (r : BrokenLinksResultV1)
    (link : SyntheticLinkResult) :
  passing_link_count (parse_link r link)
  = passing_link_count r + (if verdict_is true link then 1 else 0)
  ∧ failing_link_count (parse_link r link)
    = failing_link_count r + (if verdict_is false link then 1 else 0)
  ∧ bucket_deltas r (parse_link r link)
    = [ if counted link && status_in 200 299 link then 1 else 0;
        if counted link && status_in 300 399 link then 1 else 0;
        if counted link && status_in 400 499 link then 1 else 0;
        if counted link && status_in 500 599 link then 1 else 0;
        if counted link && negb (status_in 200 599 link) then 1 else 0 ].
Proof.
  unfold verdict_is, counted, status_in.
  destruct (link_passed link) as [passed|] eqn:Hp.
  - destruct (parse_link_counted r link passed Hp) as (_ & H1 & H2 & H3).
    rewrite H1, H2, H3, count_status_deltas.
    rewrite (bool_decide_eq_true_2 (is_Some _)) by eauto.
    split; [|split].
    + destruct passed; case_bool_decide; congruence.
    + destruct passed; case_bool_decide; congruence.
    + destruct (status_code link) as [c|]; [|reflexivity].
      cbn [andb].
      repeat case_decide;
        repeat match goal with
               | |- context [(?a <=? ?b)] =>
                   destruct (Z.leb_spec a b); try lia
               end; reflexivity.
  - rewrite (parse_link_skipped r link Hp).
    rewrite (bool_decide_eq_false_2 (is_Some _))
      by (intros [? ?]; discriminate).
    rewrite !bool_decide_eq_false_2 by discriminate.
    unfold bucket_deltas. cbn [andb].
    repeat split; try lia. list_eq_lia.
Qed.

Lemma foldl_parse_link_counters (links : list SyntheticLinkResult)
    (r : BrokenLinksResultV1) :
  passing_link_count (foldl parse_link r links)
  = passing_link_count r + count_of (verdict_is true) links
  ∧ failing_link_count (foldl parse_link r links)
    = failing_link_count r + count_of (verdict_is false) links
  ∧ bucket_deltas r (foldl parse_link r links)
    = [ count_of (λ l, counted l && status_in 200 299 l) links;
        count_of (λ l, counted l && status_in 300 399 l) links;
        count_of (λ l, counted l && status_in 400 499 l) links;
        count_of (λ l, counted l && status_in 500 599 l) links;
        count_of (λ l, counted l && negb (status_in 200 599 l)) links ].
Proof.
  revert r. induction links as [|link links IH]; intros r; cbn [foldl].
  - unfold bucket_deltas, count_of. cbn. repeat split; try lia. list_eq_lia.
  - destruct (IH (parse_link r link)) as (IH1 & IH2 & IH3).
    destruct (parse_link_counters r link) as (H1 & H2 & H3).
    rewrite IH1, IH2, H1, H2, !count_of_cons.
    split; [lia|split; [lia|]].
    unfold bucket_deltas in *.
    injection IH3 as I2 I3 I4 I5 Iu. injection H3 as J2 J3 J4 J5 Ju.
    list_eq_lia.
Qed.

(** X2.  Every counter of the report is a count over the input:
    [passing_link_count] and [failing_link_count] count the results whose
    verdict is true and false; each status bucket counts the results with a
    verdict whose code lies in its hundred; [unreachable_count] counts the
    results with a verdict whose code is absent or outside 200..599. *)
Theorem parseFollowedLinks_counters
    (followed_links : list SyntheticLinkResult) :
  passing_link_count (parseFollowedLinks followed_links)
  = count_of (verdict_is true) followed_links
  ∧ failing_link_count (parseFollowedLinks followed_links)
    = count_of (verdict_is false) followed_links
  ∧ status2xx_count (parseFollowedLinks followed_links)
    = count_of (λ l, counted l && status_in 200 299 l) followed_links
  ∧ status3xx_count (parseFollowedLinks followed_links)
    = count_of (λ l, counted l && status_in 300 399 l) followed_links
  ∧ status4xx_count (parseFollowedLinks followed_links)
    = count_of (λ l, counted l && status_in 400 499 l) followed_links
  ∧ status5xx_count (parseFollowedLinks followed_links)
    = count_of (λ l, counted l && status_in 500 599 l) followed_links
  ∧ unreachable_count (parseFollowedLinks followed_links)
    = count_of (λ l, counted l && negb (status_in 200 599 l)) followed_links.
Proof.
  destruct (foldl_parse_link_counters followed_links Report.initial)
    as (H1 & H2 & H3).
  fold (parseFollowedLinks followed_links) in H1, H2, H3.
  unfold bucket_deltas in H3. cbn in H1, H2, H3.
  injection H3 as E2 E3 E4 E5 Eu.
  repeat split; lia.
Qed.

(** ** Report assembly: the generic result *)

(** X3.  Provided the clock's text changes from one millisecond to the
    next, the generic result never reports an end time equal to the start
    time it was given, whatever that start time is. *)
Theorem getGenericSyntheticResult_end_differs (toISOString : Z → string)
    (now : Z) (metadata : gmap string string)
    (startTime genericErrorMessage : string) :
  toISOString (now + 1) ≠ toISOString now →
  end_time (getGenericSyntheticResult toISOString now metadata startTime
              genericErrorMessage)
  ≠ start_time (getGenericSyntheticResult toISOString now metadata startTime
                  genericErrorMessage).
Proof.
  intros Hclock. cbn. unfold getEndTime.
  destruct (String.eqb (toISOString now) startTime) eqn:E.
  - apply String.eqb_eq in E. subst startTime. exact Hclock.
  - apply String.eqb_neq in E. exact E.
Qed.

Lemma getGenericSyntheticResult_end_differs_witness :
  end_time (getGenericSyntheticResult Date.toISOString 1704067200000 ∅
              "2024-01-01T00:00:00.000Z" "page failed")
  ≠ start_time (getGenericSyntheticResult Date.toISOString 1704067200000 ∅
                  "2024-01-01T00:00:00.000Z" "page failed").
Proof.
  apply (getGenericSyntheticResult_end_differs Date.toISOString 1704067200000
           ∅ "2024-01-01T00:00:00.000Z" "page failed").
  vm_compute. discriminate.
Defined.

(** ** Object names: what [sanitizeObjectName] returns *)

Lemma strip_prefix_Some (p s rest : JsString.t) :
  JsString.strip_prefix p s = Some rest → s = p ++ rest.
Proof.
  revert s. induction p as [|a p IH]; intros s; cbn.
  - now intros [= ->].
  - destruct s as [|b s]; [discriminate|].
    destruct (N.eqb_spec a b) as [->|]; [|discriminate].
    intros H. now rewrite (IH s H).
Qed.

(** The forbidden prefix has a solidus in it, so a clean name does not
    start with it. *)
Lemma replace_wellKnownPrefix_clean (s : JsString.t) :
  clean_name s → JsString.replace_wellKnownPrefix s = s.
Proof.
  intros Hs. unfold JsString.replace_wellKnownPrefix.
  destruct (JsString.strip_prefix _ s) as [rest|] eqn:E; [|reflexivity].
  apply strip_prefix_Some in E. subst s. exfalso.
  unfold clean_name in Hs. rewrite Forall_forall in Hs.
  destruct (Hs 47%N) as [Hinv _]; [|discriminate Hinv].
  apply elem_of_app. left. vm_compute. repeat constructor.
Qed.

Lemma replace_invalidCharacters_clean (s : JsString.t) :
  clean_name s → JsString.replace_invalidCharacters s = s.
Proof.
  unfold JsString.replace_invalidCharacters.
  induction 1 as [|c s [Hc _] _ IH]; cbn; [reflexivity|].
  now rewrite Hc, IH.
Qed.

Lemma trimStart_clean (s : JsString.t) :
  clean_name s → JsString.trimStart s = s.
Proof. destruct 1 as [|c s [_ Hc] _]; cbn; [reflexivity|now rewrite Hc]. Qed.

Lemma trim_clean (s : JsString.t) : clean_name s → JsString.trim s = s.
Proof.
  intros Hs. unfold JsString.trim, JsString.trimEnd.
  rewrite (trimStart_clean s Hs), trimStart_clean, reverse_involutive;
    [reflexivity|].
  unfold clean_name in *. now apply Forall_reverse.
Qed.

Lemma replace_whiteSpaceRuns_clean (s : JsString.t) :
  clean_name s → JsString.replace_whiteSpaceRuns false s = s.
Proof.
  induction 1 as [|c s [_ Hc] _ IH]; cbn; [reflexivity|].
  now rewrite Hc, IH.
Qed.

(** X4.  A clean name that is not empty and is neither "." nor ".." comes
    back unchanged. *)
Theorem sanitizeObjectName_clean (s : JsString.t) :
  clean_name s →
  s ≠ [] → s ≠ JsString.of_string "." → s ≠ JsString.of_string ".." →
  sanitizeObjectName (Some s) = s.
Proof.
  intros Hs H0 H1 H2. unfold sanitizeObjectName, JsString.eqb.
  rewrite !bool_decide_eq_false_2 by assumption. cbn [orb].
  rewrite (replace_wellKnownPrefix_clean s Hs),
    (replace_invalidCharacters_clean s Hs), (trim_clean s Hs).
  now apply replace_whiteSpaceRuns_clean.
Qed.

Lemma sanitizeObjectName_clean_witness :
  sanitizeObjectName (Some (JsString.of_string "uptime123-screenshot_1.png"))
  = JsString.of_string "uptime123-screenshot_1.png".
Proof.
  apply (sanitizeObjectName_clean
           (JsString.of_string "uptime123-screenshot_1.png")).
  - vm_compute. repeat constructor.
  - discriminate.
  - discriminate.
  - discriminate.
Defined.

(** X5.  Whatever the input, no code unit of the result is of the invalid
    class (carriage return, line feed, U+007F to U+009F, the double quote
    and # [ ] * ? : < > | /) and none is white space. *)
Theorem sanitizeObjectName_clean_result (inputString : option JsString.t) :
  clean_name (sanitizeObjectName inputString).
Proof.
  unfold clean_name. rewrite Forall_forall.
  intros c Hc. now apply (sanitizeObjectName_characters inputString).
Qed.

(** X6.  Sanitizing a result again gives "_" when the result is empty,
    "." or "..", and gives the result back in every other case. *)
Theorem sanitizeObjectName_twice (inputString : option JsString.t) :
  sanitizeObjectName (Some (sanitizeObjectName inputString))
  = if decide (sanitizeObjectName inputString = []
               ∨ sanitizeObjectName inputString = JsString.of_string "."
               ∨ sanitizeObjectName inputString = JsString.of_string "..")
    then JsString.of_string "_"
    else sanitizeObjectName inputString.
Proof.
  assert (Hclean : clean_name (sanitizeObjectName inputString)).
  { unfold clean_name. rewrite Forall_forall.
    intros c Hc. now apply (sanitizeObjectName_characters inputString). }
  generalize dependent (sanitizeObjectName inputString). intros out Hclean.
  case_decide as Hout.
  - unfold sanitizeObjectName, JsString.eqb.
    destruct Hout as [-> | [-> | ->]]; reflexivity.
  - unfold sanitizeObjectName, JsString.eqb.
    rewrite !bool_decide_eq_false_2 by (intros ->; apply Hout; auto).
    cbn [orb].
    rewrite (replace_wellKnownPrefix_clean out Hclean),
      (replace_invalidCharacters_clean out Hclean), (trim_clean out Hclean).
    now apply replace_whiteSpaceRuns_clean.
Qed.

Lemma trimStart_nil (s : JsString.t) :
  JsString.trimStart s = [] ↔ Forall (λ c, JsString.whiteSpace c = true) s.
Proof.
  induction s as [|c s IH]; cbn.
  - split; [constructor|reflexivity].
  - destruct (JsString.whiteSpace c) eqn:E.
    + rewrite IH. split; [now constructor|now inversion 1].
    + split; [discriminate|]. inversion 1; congruence.
Qed.

Lemma trimStart_head (s t : JsString.t) (c : N) :
  JsString.trimStart s = c :: t → JsString.whiteSpace c = false.
Proof.
  induction s as [|d s IH]; cbn; [discriminate|].
  destruct (JsString.whiteSpace d) eqn:E; [exact IH|].
  now intros [= <- _].
Qed.

Lemma trim_nil (s : JsString.t) :
  JsString.trim s = [] ↔ Forall (λ c, JsString.whiteSpace c = true) s.
Proof.
  unfold JsString.trim, JsString.trimEnd. split.
  - intros H. apply (f_equal reverse) in H.
    rewrite reverse_involutive, reverse_nil in H.
    apply trimStart_nil, Forall_reverse in H. rewrite reverse_involutive in H.
    apply trimStart_nil.
    destruct (JsString.trimStart s) as [|c t] eqn:E; [reflexivity|].
    apply trimStart_head in E. inversion H; congruence.
  - intros H. apply trimStart_nil in H. now rewrite H.
Qed.

Lemma replace_whiteSpaceRuns_nil (s : JsString.t) :
  JsString.replace_whiteSpaceRuns false s = [] → s = [].
Proof.
  destruct s as [|c s]; [reflexivity|]. cbn.
  now destruct (JsString.whiteSpace c).
Qed.

Lemma replace_invalidCharacters_blank (s : JsString.t) :
  Forall (λ c, JsString.whiteSpace c = true)
    (JsString.replace_invalidCharacters s)
  ↔ blank_name s.
Proof.
  unfold JsString.replace_invalidCharacters, blank_name.
  rewrite Forall_fmap. apply Forall_iff. intros c. cbn.
  destruct (JsString.invalidCharacter c).
  - split; [discriminate|intros [_ ?]; discriminate].
  - tauto.
Qed.

(** X7.  The result is empty exactly when the input is a text, not empty,
    made only of white space other than carriage returns and line feeds. *)
Theorem sanitizeObjectName_empty (s : JsString.t) :
  sanitizeObjectName (Some s) = [] ↔ s ≠ [] ∧ blank_name s.
Proof.
  unfold sanitizeObjectName, JsString.eqb. split.
  - destruct (_ || _) eqn:Eguard; [discriminate|].
    apply orb_false_elim in Eguard as [[H0 _]%orb_false_elim _].
    apply bool_decide_eq_false in H0.
    intros H%replace_whiteSpaceRuns_nil%trim_nil. split; [exact H0|].
    unfold JsString.replace_wellKnownPrefix in H.
    destruct (JsString.strip_prefix _ s) as [rest|].
    + cbn in H. inversion H as [|? ? Hu _]. discriminate Hu.
    + now apply replace_invalidCharacters_blank.
  - intros [H0 Hblank].
    assert (Hhead : ∃ c t, s = c :: t ∧ JsString.whiteSpace c = true).
    { destruct Hblank as [|c t [Hc _] _]; [done|eauto]. }
    destruct Hhead as (c & t & -> & Hc).
    rewrite (bool_decide_eq_false_2 (c :: t = [])) by done.
    rewrite !bool_decide_eq_false_2
      by (intros [= -> _]; discriminate Hc).
    cbn [orb]. unfold JsString.replace_wellKnownPrefix.
    destruct (JsString.strip_prefix _ (c :: t)) as [rest|] eqn:E.
    { apply strip_prefix_Some in E. injection E as -> _. discriminate Hc. }
    apply replace_invalidCharacters_blank, trim_nil in Hblank.
    now rewrite Hblank.
Qed.

Lemma trimStart_length (s : JsString.t) :
  (length (JsString.trimStart s) ≤ length s)%nat.
Proof.
  induction s as [|c s IH]; cbn; [lia|].
  destruct (JsString.whiteSpace c); cbn; lia.
Qed.

Lemma trim_length (s : JsString.t) :
  (length (JsString.trim s) ≤ length s)%nat.
Proof.
  unfold JsString.trim, JsString.trimEnd. rewrite length_reverse.
  etrans; [apply trimStart_length|]. rewrite length_reverse.
  apply trimStart_length.
Qed.

Lemma replace_whiteSpaceRuns_length (in_run : bool) (s : JsString.t) :
  (length (JsString.replace_whiteSpaceRuns in_run s) ≤ length s)%nat.
Proof.
  revert in_run. induction s as [|c s IH]; intros in_run; cbn; [lia|].
  pose proof (IH true). pose proof (IH false).
  destruct (JsString.whiteSpace c), in_run; cbn; lia.
Qed.

(** X8.  For a text that is not empty the result is never longer than the
    input. *)
Theorem sanitizeObjectName_length (s : JsString.t) :
  s ≠ [] →
  (length (sanitizeObjectName (Some s)) ≤ length s)%nat.
Proof.
  intros H0. unfold sanitizeObjectName, JsString.eqb.
  rewrite (bool_decide_eq_false_2 (s = [])) by done. cbn [orb].
  repeat case_bool_decide; subst; cbn [orb]; try (vm_compute; lia).
  etrans; [apply replace_whiteSpaceRuns_length|].
  etrans; [apply trim_length|].
  unfold JsString.replace_invalidCharacters. rewrite length_fmap.
  unfold JsString.replace_wellKnownPrefix.
  destruct (JsString.strip_prefix _ s) as [rest|] eqn:E; [|lia].
  apply strip_prefix_Some in E. subst s.
  rewrite length_app. cbn. lia.
Qed.

Lemma sanitizeObjectName_length_witness :
  (length (sanitizeObjectName
             (Some (JsString.of_string ".well-known/acme-challenge/a b")))
   ≤ length (JsString.of_string ".well-known/acme-challenge/a b"))%nat.
Proof.
  apply (sanitizeObjectName_length
           (JsString.of_string ".well-known/acme-challenge/a b")).
  discriminate.
Defined.

(** ** Link selector: the random mode, the draws, limits below one *)

Lemma insert_by_sort_Permutation x l : insert_by_sort x l ≡ₚ x :: l.
Proof.
  induction l as [|y l IH]; cbn; [reflexivity|].
  destruct (Qle_bool (snd x) (snd y)); [reflexivity|].
  rewrite IH. apply Permutation_swap.
Qed.

Lemma sort_by_sort_Permutation l : sort_by_sort l ≡ₚ l.
Proof.
  induction l as [|x l IH]; cbn; [reflexivity|].
  unfold sort_by_sort in IH. now rewrite insert_by_sort_Permutation, IH.
Qed.

Lemma insert_by_sort_ascending x l :
  ascending l → ascending (insert_by_sort x l).
Proof.
  unfold ascending. induction 1 as [|y l Hl IH Hy]; cbn.
  - repeat constructor.
  - destruct (Qle_bool (snd x) (snd y)) eqn:E.
    + apply Qle_bool_iff in E. repeat constructor; assumption.
    + assert (Hyx : (snd y <= snd x)%Q).
      { apply Qlt_le_weak, Qnot_le_lt. intros H.
        apply Qle_bool_iff in H. congruence. }
      constructor; [exact IH|].
      destruct Hy as [|z l Hz]; cbn; [now constructor|].
      destruct (Qle_bool (snd x) (snd z)); now constructor.
Qed.

Lemma sort_by_sort_ascending l : ascending (sort_by_sort l).
Proof.
  induction l as [|x l IH]; cbn; [constructor|].
  now apply insert_by_sort_ascending.
Qed.

Section SelectorDraws.

Context (Math_random : nat → Q).

(** Each element gets the next number drawn. *)
Lemma attach_keys_zip (elems : list LinkIntermediate) (m : Mem) :
  attach_keys Math_random elems m
  = Some (zip elems (draws Math_random m (length elems)),
          {| heap := heap m;
             random_calls := (random_calls m + length elems)%nat |}).
Proof.
  revert m. induction elems as [|value rest IH]; intros m.
  - cbn. unfold mret, M_ret. destruct m; cbn. now rewrite Nat.add_0_r.
  - cbn [attach_keys].
    rewrite (bind_Some _ _ m _ (Math_random (random_calls m)) eq_refl).
    rewrite (bind_Some _ _ _ _ _ (IH _)).
    unfold mret, M_ret, draws. cbn. repeat f_equal. lia.
Qed.

(** The random mode, step by step: the copy, the keyed array sorted in
    place, the array mapped back and the slice are four new arrays. *)
Lemma shuffleAndTruncate_RANDOM_run (m : Mem) (links : nat)
    (elems : list LinkIntermediate) (link_limit : Z) :
  heap m !! links = Some (LinkArray elems) →
  ∃ (r : nat) (m' : Mem),
    shuffleAndTruncate Math_random links link_limit RANDOM m = Some (r, m')
    ∧ heap m' !! r
      = Some (LinkArray
                (take (clamp_index (length elems) (link_limit - 1))
                   (fst <$> sort_by_sort
                              (zip elems
                                 (draws Math_random m (length elems))))))
    ∧ random_calls m' = (random_calls m + length elems)%nat
    ∧ ∀ l, is_Some (heap m !! l) → heap m' !! l = heap m !! l.
Proof.
  intros Hlinks. unfold shuffleAndTruncate.
  destruct (alloc_Some (LinkArray elems) m) as (r1 & Hr1 & Ha1).
  set (m1 := {| heap := <[r1 := LinkArray elems]> (heap m);
                random_calls := random_calls m |}) in *.
  pose proof (attach_keys_zip elems m1) as Hk.
  set (keyed := zip elems (draws Math_random m1 (length elems))) in *.
  set (m1' := {| heap := heap m1;
                 random_calls := (random_calls m1 + length elems)%nat |})
    in *.
  destruct (alloc_Some (KeyedArray keyed) m1') as (r2 & Hr2 & Ha2).
  set (m2 := {| heap := <[r2 := KeyedArray keyed]> (heap m1');
                random_calls := random_calls m1' |}) in *.
  set (sorted := sort_by_sort keyed).
  set (m2' := {| heap := <[r2 := KeyedArray sorted]> (heap m2);
                 random_calls := random_calls m2 |}).
  destruct (alloc_Some (LinkArray (fst <$> sorted)) m2') as (r3 & Hr3 & Ha3).
  set (m3 := {| heap := <[r3 := LinkArray (fst <$> sorted)]> (heap m2');
                random_calls := random_calls m2' |}) in *.
  destruct (alloc_Some
              (LinkArray (Array_slice 0 (link_limit - 1) (fst <$> sorted))) m3)
    as (r & Hr & Ha).
  assert (Hlen : length (fst <$> sorted) = length elems).
  { rewrite length_fmap. unfold sorted. rewrite sort_by_sort_length.
    unfold keyed, draws. rewrite length_zip, length_fmap, length_seq. lia. }
  cbn in Hr, Hr3, Hr2.
  assert (Hne2 : r2 ≠ r1) by (intros ->; now rewrite lookup_insert_eq in Hr2).
  rewrite lookup_insert_ne in Hr2 by done.
  assert (Hne3 : r3 ≠ r2) by (intros ->; now rewrite lookup_insert_eq in Hr3).
  rewrite !(lookup_insert_ne _ r2 r3) in Hr3 by done.
  assert (Hne3' : r3 ≠ r1)
    by (intros ->; now rewrite lookup_insert_eq in Hr3).
  rewrite lookup_insert_ne in Hr3 by done.
  assert (Hne : r ≠ r3) by (intros ->; now rewrite lookup_insert_eq in Hr).
  rewrite lookup_insert_ne in Hr by done.
  assert (Hne' : r ≠ r2) by (intros ->; now rewrite lookup_insert_eq in Hr).
  rewrite !(lookup_insert_ne _ r2 r) in Hr by done.
  assert (Hne'' : r ≠ r1) by (intros ->; now rewrite lookup_insert_eq in Hr).
  rewrite lookup_insert_ne in Hr by done.
  eexists r, _. split; [|split; [|split]].
  - rewrite (bind_Some _ _ m m3 r3).
    + rewrite (bind_Some _ _ m3 m3 (fst <$> sorted))
        by (apply read_links_Some; cbn; apply lookup_insert_eq).
      exact Ha.
    + rewrite (bind_Some _ _ m m elems) by now apply read_links_Some.
      rewrite (bind_Some _ _ m m1 r1 Ha1).
      rewrite (bind_Some _ _ m1 m1 elems)
        by (apply read_links_Some; cbn; apply lookup_insert_eq).
      rewrite (bind_Some _ _ m1 m1' keyed Hk).
      rewrite (bind_Some _ _ m1' m2 r2 Ha2).
      rewrite (bind_Some _ _ m2 m2 keyed)
        by (apply read_keyed_Some; cbn; apply lookup_insert_eq).
      rewrite (bind_Some _ _ m2 m2' tt eq_refl).
      rewrite (bind_Some _ _ m2' m2' sorted)
        by (apply read_keyed_Some; cbn; apply lookup_insert_eq).
      exact Ha3.
  - cbn. rewrite lookup_insert_eq, Array_slice_0, Hlen. reflexivity.
  - reflexivity.
  - intros l [a Hl]. cbn.
    rewrite !lookup_insert_ne by congruence. reflexivity.
Qed.

(** The other modes, step by step: the copy and the slice. *)
Lemma shuffleAndTruncate_unshuffled_run (m : Mem) (links : nat)
    (elems : list LinkIntermediate) (link_limit : Z) (order : LinkOrder) :
  heap m !! links = Some (LinkArray elems) →
  order ≠ RANDOM →
  ∃ (r : nat) (m' : Mem),
    shuffleAndTruncate Math_random links link_limit order m = Some (r, m')
    ∧ random_calls m' = random_calls m.
Proof.
  intros Hlinks Horder.
  destruct (alloc_Some (LinkArray elems) m) as (r1 & Hr1 & Ha1).
  set (m1 := {| heap := <[r1 := LinkArray elems]> (heap m);
                random_calls := random_calls m |}) in *.
  destruct (alloc_Some
              (LinkArray (Array_slice 0 (link_limit - 1) elems)) m1)
    as (r & Hr & Ha).
  assert (Hrun :
    (linksToFollow ← (elems ← read_links links; alloc (LinkArray elems));
     elems ← read_links linksToFollow;
     alloc (LinkArray (Array_slice 0 (link_limit - 1) elems))) m
    = Some (r, {| heap :=
                    <[r := LinkArray
                             (Array_slice 0 (link_limit - 1) elems)]>
                      (heap m1);
                  random_calls := random_calls m1 |})).
  { rewrite (bind_Some _ _ m m1 r1).
    - rewrite (bind_Some _ _ m1 m1 elems)
        by (apply read_links_Some; cbn; apply lookup_insert_eq).
      exact Ha.
    - rewrite (bind_Some _ _ m m elems) by now apply read_links_Some.
      exact Ha1. }
  unfold shuffleAndTruncate.
  destruct order; [| |done]; eexists r, _; (split; [exact Hrun|reflexivity]).
Qed.

(** X9.  In mode [RANDOM] one number is drawn per input link, and the
    array returned holds the links of the first [clamp_index k (L - 1)]
    pairs of [keyed], an arrangement of the (link, number) pairs in
    ascending order of the numbers; so every link returned is an input link,
    no more often than it occurs in the input.  The input array holds
    afterwards what it held before. *)
Theorem shuffleAndTruncate_RANDOM (m : Mem) (links : nat)
    (elems : list LinkIntermediate) (link_limit : Z) :
  heap m !! links = Some (LinkArray elems) →
  ∃ (r : nat) (m' : Mem) (keyed : list (LinkIntermediate * Q)),
    shuffleAndTruncate Math_random links link_limit RANDOM m = Some (r, m')
    ∧ keyed ≡ₚ zip elems (draws Math_random m (length elems))
    ∧ ascending keyed
    ∧ heap m' !! r
      = Some (LinkArray
                (fst <$> take (clamp_index (length elems) (link_limit - 1))
                           keyed))
    ∧ (fst <$> take (clamp_index (length elems) (link_limit - 1)) keyed)
      ⊆+ elems
    ∧ heap m' !! links = Some (LinkArray elems).
Proof.
  intros Hlinks.
  destruct (shuffleAndTruncate_RANDOM_run m links elems link_limit Hlinks)
    as (r & m' & Hrun & Hout & _ & Hkept).
  exists r, m',
    (sort_by_sort (zip elems (draws Math_random m (length elems)))).
  split; [exact Hrun|].
  split; [apply sort_by_sort_Permutation|].
  split; [apply sort_by_sort_ascending|].
  split; [now rewrite fmap_take|].
  split; [|rewrite Hkept by eauto; exact Hlinks].
  etrans; [apply sublist_submseteq, fmap_sublist, sublist_take|].
  apply Permutation_submseteq.
  rewrite sort_by_sort_Permutation. rewrite fst_zip; [reflexivity|].
  unfold draws. rewrite length_fmap, length_seq. lia.
Qed.

(** X10.  A call draws one random number per input link in mode [RANDOM]
    and none in the other modes. *)
Theorem shuffleAndTruncate_draws (m : Mem) (links : nat)
    (elems : list LinkIntermediate) (link_limit : Z) (order : LinkOrder) :
  heap m !! links = Some (LinkArray elems) →
  ∃ (r : nat) (m' : Mem),
    shuffleAndTruncate Math_random links link_limit order m = Some (r, m')
    ∧ random_calls m'
      = (random_calls m
         + match order with RANDOM => length elems | _ => 0 end)%nat.
Proof.
  intros Hlinks. destruct order.
  - destruct (shuffleAndTruncate_unshuffled_run m links elems link_limit
                LINK_ORDER_UNSPECIFIED Hlinks ltac:(discriminate))
      as (r & m' & Hrun & Hcalls).
    exists r, m'. split; [exact Hrun|lia].
  - destruct (shuffleAndTruncate_unshuffled_run m links elems link_limit
                FIRST_N Hlinks ltac:(discriminate))
      as (r & m' & Hrun & Hcalls).
    exists r, m'. split; [exact Hrun|lia].
  - destruct (shuffleAndTruncate_RANDOM_run m links elems link_limit Hlinks)
      as (r & m' & Hrun & _ & Hcalls & _).
    exists r, m'. split; [exact Hrun|exact Hcalls].
Qed.

(** X11.  With a limit below one, [slice] counts its end from the back:
    the array returned has [max (k + L - 1) 0] links, so a limit of 0 drops
    only the last link. *)
Theorem shuffleAndTruncate_limit_below_one (m : Mem) (links : nat)
    (elems : list LinkIntermediate) (link_limit : Z) (order : LinkOrder) :
  heap m !! links = Some (LinkArray elems) →
  link_limit ≤ 0 →
  ∃ (r : nat) (m' : Mem) (out : list LinkIntermediate),
    shuffleAndTruncate Math_random links link_limit order m = Some (r, m')
    ∧ heap m' !! r = Some (LinkArray out)
    ∧ Z.of_nat (length out)
      = Z.max (Z.of_nat (length elems) + link_limit - 1) 0.
Proof.
  intros Hlinks Hlimit.
  destruct (shuffleAndTruncate_Some Math_random m links elems link_limit
              order Hlinks)
    as (r & m' & chosen & Hrun & _ & Hout & Hlen & _).
  exists r, m', (take (clamp_index (length elems) (link_limit - 1)) chosen).
  split; [exact Hrun|split; [exact Hout|]].
  rewrite length_take, Hlen. unfold clamp_index.
  replace (link_limit - 1 <? 0) with true by (symmetry; apply Z.ltb_lt; lia).
  lia.
Qed.

End SelectorDraws.

Lemma shuffleAndTruncate_RANDOM_witness :
  ∃ (r : nat) (m' : Mem) (keyed : list (LinkIntermediate * Q)),
    shuffleAndTruncate (λ n, inject_Z (Z.of_nat (3 - n))) 0 3 RANDOM
      three_links
    = Some (r, m')
    ∧ keyed ≡ₚ zip [link "link1"; link "link2"; link "link3"]
                 (draws (λ n, inject_Z (Z.of_nat (3 - n))) three_links 3)
    ∧ ascending keyed
    ∧ heap m' !! r
      = Some (LinkArray (fst <$> take (clamp_index 3 (3 - 1)) keyed))
    ∧ (fst <$> take (clamp_index 3 (3 - 1)) keyed)
      ⊆+ [link "link1"; link "link2"; link "link3"]
    ∧ heap m' !! 0%nat
      = Some (LinkArray [link "link1"; link "link2"; link "link3"]).
Proof.
  apply (shuffleAndTruncate_RANDOM (λ n, inject_Z (Z.of_nat (3 - n)))
           three_links 0
           [link "link1"; link "link2"; link "link3"] 3).
  reflexivity.
Defined.


Lemma shuffleAndTruncate_draws_witness :
  ∃ (r : nat) (m' : Mem),
    shuffleAndTruncate (λ _, 0%Q) 0 3 RANDOM three_links = Some (r, m')
    ∧ random_calls m' = (random_calls three_links + 3)%nat.
Proof.
  apply (shuffleAndTruncate_draws (λ _, 0%Q) three_links 0
           [link "link1"; link "link2"; link "link3"] 3 RANDOM).
  reflexivity.
Defined.

Lemma shuffleAndTruncate_limit_below_one_witness :
  ∃ (r : nat) (m' : Mem) (out : list LinkIntermediate),
    shuffleAndTruncate (λ _, 0%Q) 0 0 FIRST_N three_links = Some (r, m')
    ∧ heap m' !! r = Some (LinkArray out)
    ∧ Z.of_nat (length out) = Z.max (Z.of_nat 3 + 0 - 1) 0.
Proof.
  apply (shuffleAndTruncate_limit_below_one (λ _, 0%Q) three_links 0
           [link "link1"; link "link2"; link "link3"] 0 FIRST_N).
  - reflexivity.
  - lia.
Defined.

(** ** Retrying fetcher: edge cases and what a pass means *)

Section FetcherEdges.

Context {World : Type}
        (page_goto : string → Z → World → GotoResult * World)
        (now_iso : World → string).

(** The shape of every run of [navigate]: [n] attempts on the link's
    target with the link's timeout, and the return built from the last
    output, or from the empty object when there was no attempt. *)
Lemma navigate_shape (link : LinkIntermediate)
    (options : BrokenLinkCheckerOptions) (expected : ResponseStatusCode)
    (w : World) :
  ∃ n : nat,
    navigate page_goto now_iso link options expected w
    = navigate_return
        (max_retries options + 1 - Z.of_nat n)
        (from_option (attempt_passed expected) false
           (last (fst (fetches page_goto now_iso (li_target_uri link)
                         (timeout_for options link) n w))))
        (default {| responseOrError := RUndefined;
                    linkStartTime := None; linkEndTime := None |}
           (last (fst (fetches page_goto now_iso (li_target_uri link)
                         (timeout_for options link) n w))))
        (fst (fetches page_goto now_iso (li_target_uri link)
                (timeout_for options link) n w))
        (snd (fetches page_goto now_iso (li_target_uri link)
                (timeout_for options link) n w))
    ∧ Z.of_nat n ≤ Z.max (max_retries options + 1) 0.
Proof.
  destruct (navigate_loop_spec page_goto now_iso (li_target_uri link)
              (timeout_for options link) expected
              (Z.to_nat (max_retries options + 1))
              (max_retries options + 1) false
              {| responseOrError := RUndefined;
                 linkStartTime := None; linkEndTime := None |} [] w eq_refl)
    as (n & Hrun & Hn & _).
  exists n. split; [exact Hrun|exact Hn].
Qed.

(** X12.  With [max_retries] below zero [navigate] makes no attempt at
    all: the page is left as it was, and the link is reported as failed
    with no response and no times. *)
Theorem navigate_no_attempt (link : LinkIntermediate)
    (options : BrokenLinkCheckerOptions) (expected : ResponseStatusCode)
    (w : World) :
  max_retries options < 0 →
  navigate page_goto now_iso link options expected w
  = {| returned :=
         {| nr_responseOrError := RUndefined;
            nr_passed := false;
            nr_retriesRemaining := max_retries options + 1;
            nr_linkStartTime := None;
            nr_linkEndTime := None |};
       fetched := [];
       world := w |}.
Proof.
  intros HR.
  destruct (navigate_shape link options expected w) as (n & Hrun & Hn).
  assert (n = 0%nat) as -> by lia.
  rewrite Hrun. cbn. unfold navigate_return. cbn.
  now rewrite Z.sub_0_r.
Qed.

(** X13.  Whatever the options, [passed] is set only on a response whose
    status satisfies the expectation: the result then holds that response,
    which is the output of the last attempt. *)
Theorem navigate_passed_response (link : LinkIntermediate)
    (options : BrokenLinkCheckerOptions) (expected : ResponseStatusCode)
    (w : World) :
  nr_passed (returned (navigate page_goto now_iso link options expected w))
  = true →
  ∃ (status : Z) (out : CommonResponseProps),
    nr_responseOrError
      (returned (navigate page_goto now_iso link options expected w))
    = RHTTPResponse status
    ∧ checkStatusPassing (Some expected) status = true
    ∧ last (fetched (navigate page_goto now_iso link options expected w))
      = Some out
    ∧ responseOrError out = RHTTPResponse status.
Proof.
  destruct (navigate_shape link options expected w) as (n & -> & _).
  cbn. destruct (last _) as [out|]; cbn; [|discriminate].
  unfold attempt_passed.
  destruct (responseOrError out) as [status| | |] eqn:E; cbn;
    try discriminate.
  intros Hpass. exists status, out. auto.
Qed.

(** X14.  Every attempt of [navigate] goes to the link's target with the
    timeout set for that target in [per_link_options] when there is one,
    and with [link_timeout_millis] otherwise; there are at most
    [max_retries + 1] attempts, none when that is below one. *)
Theorem navigate_attempts_timeout (link : LinkIntermediate)
    (options : BrokenLinkCheckerOptions) (expected : ResponseStatusCode)
    (w : World) :
  ∃ n : nat,
    Z.of_nat n ≤ Z.max (max_retries options + 1) 0
    ∧ fetched (navigate page_goto now_iso link options expected w)
      = fst (fetches page_goto now_iso (li_target_uri link)
               (timeout_for options link) n w)
    ∧ world (navigate page_goto now_iso link options expected w)
      = snd (fetches page_goto now_iso (li_target_uri link)
               (timeout_for options link) n w).
Proof.
  destruct (navigate_shape link options expected w) as (n & -> & Hn).
  exists n. auto.
Qed.

End FetcherEdges.

Lemma navigate_no_attempt_witness :
  navigate flaky_page (λ _, "") (link "a") (retry_options (-1)) expect_2xx
    0%nat
  = {| returned :=
         {| nr_responseOrError := RUndefined;
            nr_passed := false;
            nr_retriesRemaining := -1 + 1;
            nr_linkStartTime := None;
            nr_linkEndTime := None |};
       fetched := [];
       world := 0%nat |}.
Proof.
  apply (navigate_no_attempt flaky_page (λ _, "") (link "a")
           (retry_options (-1)) expect_2xx 0%nat).
  cbn. lia.
Defined.

Lemma navigate_passed_response_witness :
  ∃ (status : Z) (out : CommonResponseProps),
    nr_responseOrError
      (returned (navigate flaky_page (λ _, "") (link "a") (retry_options 2)
                   expect_2xx 0%nat))
    = RHTTPResponse status
    ∧ checkStatusPassing (Some expect_2xx) status = true
    ∧ last (fetched (navigate flaky_page (λ _, "") (link "a")
                       (retry_options 2) expect_2xx 0%nat))
      = Some out
    ∧ responseOrError out = RHTTPResponse status.
Proof.
  apply (navigate_passed_response flaky_page (λ _, "") (link "a")
           (retry_options 2) expect_2xx 0%nat).
  reflexivity.
Defined.

(** ** Link check: what a result says, and how the report counts it *)

Section LinkCheckerProperties.

Context {World : Type}
        (page_goto : string → Z → World → GotoResult * World)
        (now_iso : World → string)
        (uploadScreenshotToGCS :
           StorageParameters → BrokenLinkCheckerOptions → World
           → ScreenshotOutput * World).

(** A pass comes with a response that satisfies the expectation. *)
Lemma navigate_passed_inv (link : LinkIntermediate)
    (options : BrokenLinkCheckerOptions) (expected : ResponseStatusCode)
    (w : World) :
  nr_passed (returned (navigate page_goto now_iso link options expected w))
  = true →
  ∃ status : Z,
    nr_responseOrError
      (returned (navigate page_goto now_iso link options expected w))
    = RHTTPResponse status
    ∧ checkStatusPassing (Some expected) status = true.
Proof.
  destruct (navigate_shape page_goto now_iso link options expected w)
    as (n & -> & _).
  cbn. destruct (last _) as [out|]; cbn; [|discriminate].
  unfold attempt_passed.
  destruct (responseOrError out) as [status| | |]; cbn; try discriminate.
  eauto.
Qed.

(** X15.  A result of [checkLink] that passed has a status code, one that
    satisfies the expectation applied to the link, and carries no error
    type and no error message. *)
Theorem checkLink_passed (link : LinkIntermediate)
    (options : BrokenLinkCheckerOptions) (storageParams : StorageParameters)
    (isOrigin : bool) (w : World) :
  link_passed
    (fst (checkLink page_goto now_iso uploadScreenshotToGCS link options
            storageParams isOrigin w))
  = Some true →
  ∃ status : Z,
    status_code
      (fst (checkLink page_goto now_iso uploadScreenshotToGCS link options
              storageParams isOrigin w))
    = Some status
    ∧ checkStatusPassing (Some (expected_status_for options link)) status
      = true
    ∧ link_error_type
        (fst (checkLink page_goto now_iso uploadScreenshotToGCS link options
                storageParams isOrigin w))
      = ""
    ∧ link_error_message
        (fst (checkLink page_goto now_iso uploadScreenshotToGCS link options
                storageParams isOrigin w))
      = "".
Proof.
  unfold checkLink. cbn. intros [= Hpass].
  destruct (navigate_passed_inv link options
              (expected_status_for options link) w Hpass)
    as (status & Hresp & Hcheck).
  exists status. rewrite Hresp, Hpass. cbn. auto.
Qed.

(** X16.  Every result of [checkLink] has a verdict, so a report built
    from such results counts each of them: [link_count] is their number. *)
Theorem checkLink_results_counted (results : list SyntheticLinkResult) :
  Forall (λ result,
            ∃ link options storageParams isOrigin (w : World),
              result = fst (checkLink page_goto now_iso uploadScreenshotToGCS
                              link options storageParams isOrigin w))
         results →
  link_count (parseFollowedLinks results) = Z.of_nat (length results).
Proof.
  intros Hall.
  assert (Hfilter : filter counted results = results).
  { induction Hall as [|result results Hres _ IH]; [reflexivity|].
    rewrite filter_cons_bool, IH.
    destruct Hres as (link & options & sp & o & w & ->). reflexivity. }
  destruct (foldl_parse_link_totals results Report.initial) as (Hcount & _).
  fold (parseFollowedLinks results) in Hcount. cbn zeta in Hcount.
  rewrite Hcount, Hfilter. cbn [Report.initial link_count]. lia.
Qed.

(** X17.  A link without an entry in [per_link_options] is held to the
    class 2xx: when its result passed, the report counts it in
    [status2xx_count] and in no other bucket. *)
Theorem checkLink_default_pass_2xx (link : LinkIntermediate)
    (options : BrokenLinkCheckerOptions) (storageParams : StorageParameters)
    (isOrigin : bool) (w : World) (r : BrokenLinksResultV1) :
  per_link_options options !! li_target_uri link = None →
  link_passed
    (fst (checkLink page_goto now_iso uploadScreenshotToGCS link options
            storageParams isOrigin w))
  = Some true →
  bucket_deltas r
    (parse_link r
       (fst (checkLink page_goto now_iso uploadScreenshotToGCS link options
               storageParams isOrigin w)))
  = [1; 0; 0; 0; 0].
Proof.
  intros Hnone Hpass.
  destruct (parse_link_counted r _ true Hpass) as (_ & _ & _ & ->).
  rewrite count_status_deltas.
  revert Hpass. unfold checkLink. cbn. intros [= Hpass].
  destruct (navigate_passed_inv link options
              (expected_status_for options link) w Hpass)
    as (status & Hresp & Hcheck).
  rewrite Hresp. cbn.
  unfold expected_status_for in Hcheck. rewrite Hnone in Hcheck.
  cbn in Hcheck. apply andb_true_iff in Hcheck as [H1 H2].
  apply Z.leb_le in H1, H2.
  rewrite decide_True by lia. reflexivity.
Qed.


End LinkCheckerProperties.

Lemma checkLink_passed_witness :
  ∃ status : Z,
    status_code
      (fst (checkLink flaky_page (λ _, "") no_upload (link "a")
              (retry_options 2) no_storage false 0%nat))
    = Some status
    ∧ checkStatusPassing
        (Some (expected_status_for (retry_options 2) (link "a"))) status
      = true
    ∧ link_error_type
        (fst (checkLink flaky_page (λ _, "") no_upload (link "a")
                (retry_options 2) no_storage false 0%nat))
      = ""
    ∧ link_error_message
        (fst (checkLink flaky_page (λ _, "") no_upload (link "a")
                (retry_options 2) no_storage false 0%nat))
      = "".
Proof.
  apply (checkLink_passed flaky_page (λ _, "") no_upload (link "a")
           (retry_options 2) no_storage false 0%nat).
  reflexivity.
Defined.

Lemma checkLink_results_counted_witness :
  link_count
    (parseFollowedLinks
       [ fst (checkLink flaky_page (λ _, "") no_upload (link "a")
                (retry_options 2) no_storage true 0%nat);
         fst (checkLink flaky_page (λ _, "") no_upload (link "b")
                (retry_options 0) no_storage false 0%nat) ])
  = Z.of_nat 2.
Proof.
  apply (checkLink_results_counted flaky_page (λ _, "") no_upload
           [ fst (checkLink flaky_page (λ _, "") no_upload (link "a")
                    (retry_options 2) no_storage true 0%nat);
             fst (checkLink flaky_page (λ _, "") no_upload (link "b")
                    (retry_options 0) no_storage false 0%nat) ]).
  repeat constructor.
  - exists (link "a"), (retry_options 2), no_storage, true, 0%nat.
    reflexivity.
  - exists (link "b"), (retry_options 0), no_storage, false, 0%nat.
    reflexivity.
Defined.

Lemma checkLink_default_pass_2xx_witness :
  bucket_deltas Report.initial
    (parse_link Report.initial
       (fst (checkLink flaky_page (λ _, "") no_upload (link "a")
               (retry_options 2) no_storage false 0%nat)))
  = [1; 0; 0; 0; 0].
Proof.
  apply (checkLink_default_pass_2xx flaky_page (λ _, "") no_upload (link "a")
           (retry_options 2) no_storage false 0%nat Report.initial).
  - reflexivity.
  - reflexivity.
Defined.


(** A link answered 404 with no retry: the message names the target, the
    status received and the class expected. *)
Example checkLink_wrong_status :
  let result :=
    fst (checkLink flaky_page (λ _, "") no_upload
           (link "https://example.com/a") (retry_options 0) no_storage
           false 0%nat) in
  (link_passed result, status_code result, link_error_type result,
   link_error_message result, screenshot_file (screenshot_output result))
  = (Some false, Some 404, "BrokenLinksSynthetic_IncorrectStatusCode",
     "https://example.com/a returned status code 404 when a 200 status "
     +:+ "class was expected.",
     "shot.png").
Proof. vm_compute. reflexivity. Qed.

(** ** Deadline-bounded batch runner: order, errors, completion *)

Section BatchRuns.

Import Batch BatchProperties.

Local Ltac batch_unfold :=
  unfold step, loop_head, worker_returns, worker_throws, timer_fires,
    push_result, race_won, set_worker in *.

(** A promise settles once: after it is fulfilled or rejected no event
    changes its outcome. *)
Lemma settled_once (s : State) (o : Outcome) (events : list Event) :
  settled s = Some o → settled (run s events) = Some o.
Proof.
  revert s. induction events as [|e events IH]; intros s Hs; [exact Hs|].
  apply IH. destruct s as [reached followed timer st wk log].
  cbn in Hs. subst st. batch_unfold.
  destruct e, wk; cbn;
    repeat match goal with
           | |- context [match ?x with _ => _ end] => destruct x
           end; reflexivity.
Qed.

Lemma step_worker_inv (links : list LinkIntermediate) (s : State)
    (e : Event) :
  worker_inv links s → worker_inv links (step s e).
Proof.
  destruct s as [reached followed timer st wk log].
  unfold worker_inv. cbn. intros (Hw & Hrej & Hful).
  destruct e, wk; cbn; try (split; [exact Hw|split; assumption]).
  all: batch_unfold; cbn.
  (* the timer *)
  1-5: destruct timer; cbn; [|split; [exact Hw|split; assumption]];
       destruct st as [[res|msg]|]; cbn;
       (split; [exact Hw|split; [|]]); try assumption;
       try (intros ? [=]); try reflexivity;
       try (intros; exact (Hful _ eq_refl)).
  - (* the page opened *)
    destruct Hw as (-> & -> & ->).
    destruct links as [|l rest]; cbn.
    + destruct st as [[res|msg]|]; cbn;
        (split; [split; [apply prefix_nil|reflexivity]|split]);
        try (intros ? [=]); try reflexivity;
        try (intros; exact (Hful _ eq_refl)).
      specialize (Hrej _ eq_refl). discriminate Hrej.
    + destruct reached; cbn.
      * destruct st as [[res|msg]|]; cbn;
          (split; [split; [apply prefix_nil|reflexivity]|split]);
          try (intros ? [=]); try reflexivity;
          try (intros; exact (Hful _ eq_refl)).
        specialize (Hrej _ eq_refl). discriminate Hrej.
      * split; [auto|split; [|exact Hful]].
        intros msg0 Hm. specialize (Hrej _ Hm). discriminate Hrej.
  - (* the page failed to open *)
    destruct Hw as (-> & -> & ->).
    destruct st as [[res|msg]|]; cbn;
      (split; [split; [apply prefix_nil|left; auto]|split]);
      try (intros ? [=]); try reflexivity;
      try (intros; exact (Hful _ eq_refl)); try congruence.
    specialize (Hrej _ eq_refl). discriminate Hrej.
  - (* a check ended *)
    destruct Hw as (Hl & Hlast & Hlen).
    split; [split; [exact Hl|rewrite length_app; cbn; lia]|].
    split; [|exact Hful].
    intros msg0 Hm. specialize (Hrej _ Hm). discriminate Hrej.
  - (* a check threw *)
    destruct Hw as (Hl & Hlast & Hlen).
    destruct st as [[res|msg]|]; cbn;
      (split; [split; [exists rest; exact Hl|right; exists link0; auto]|split]);
      try (intros ? [=]); try reflexivity;
      try (intros; exact (Hful _ eq_refl)); try congruence.
    specialize (Hrej _ eq_refl). discriminate Hrej.
  - (* the page was reset *)
    destruct Hw as (Hl & Hlen).
    destruct rest as [|l rest]; cbn.
    + destruct st as [[res|msg]|]; cbn;
        (split; [split; [exists []; exact Hl|exact Hlen]|split]);
        try (intros ? [=]); try reflexivity;
        try (intros; exact (Hful _ eq_refl)).
      specialize (Hrej _ eq_refl). discriminate Hrej.
    + destruct reached; cbn.
      * destruct st as [[res|msg]|]; cbn;
          (split; [split; [exists (l :: rest); exact Hl|exact Hlen]|split]);
          try (intros ? [=]); try reflexivity;
          try (intros; exact (Hful _ eq_refl)).
        specialize (Hrej _ eq_refl). discriminate Hrej.
      * split; [|split; [|exact Hful]].
        -- split; [rewrite <- app_assoc; exact Hl|].
           split; [apply last_snoc|rewrite length_app; cbn; lia].
        -- intros msg0 Hm. specialize (Hrej _ Hm). discriminate Hrej.
Qed.

Lemma run_worker_inv (links : list LinkIntermediate) (events : list Event) :
  worker_inv links (run (checkLinks links) events).
Proof.
  assert (Hinit : worker_inv links (checkLinks links)).
  { unfold worker_inv. cbn. repeat split; auto; intros ? [=]. }
  generalize dependent (checkLinks links). intros s Hs.
  revert s Hs. induction events as [|e events IH]; intros s Hs; [exact Hs|].
  apply IH, step_worker_inv, Hs.
Qed.

(** X19.  At any moment of a run the checks started so far are the first
    links of the input, in input order, and the results gathered are as
    many as the checks started, or one fewer while a check is in flight. *)
Theorem checkLinks_in_order (links : list LinkIntermediate)
    (events : list Event) :
  started (run (checkLinks links) events) `prefix_of` links
  ∧ (length (followed_links (run (checkLinks links) events))
     ≤ length (started (run (checkLinks links) events)))%nat
  ∧ (length (started (run (checkLinks links) events))
     ≤ S (length (followed_links (run (checkLinks links) events))))%nat.
Proof.
  destruct (run_worker_inv links events) as (Hw & _).
  destruct (worker (run (checkLinks links) events)).
  - destruct Hw as (_ & -> & ->). split; [apply prefix_nil|cbn; lia].
  - destruct Hw as (Hl & _ & Hlen). split; [now exists rest|lia].
  - destruct Hw as (Hl & Hlen). split; [now exists rest|lia].
  - destruct Hw as (Hp & Hlen). split; [exact Hp|lia].
  - destruct Hw as (Hp & Hcase). split; [exact Hp|].
    destruct Hcase as [(_ & -> & ->)|(l & _ & _ & Hlen)]; cbn; lia.
Qed.

(** X20.  When the promise of a run is rejected, the error is the one of
    the page that failed to open, or it names the target of the link whose
    check threw, which is the last check started. *)
Theorem checkLinks_rejected (links : list LinkIntermediate)
    (events : list Event) (message : string) :
  settled (run (checkLinks links) events) = Some (Rejected message) →
  (message = page_open_failed_message
   ∧ started (run (checkLinks links) events) = [])
  ∨ ∃ l, l ∈ links
         ∧ last (started (run (checkLinks links) events)) = Some l
         ∧ message = link_check_failed_message l.
Proof.
  intros Hrej.
  destruct (run_worker_inv links events) as (Hw & Hthrew & _).
  rewrite (Hthrew _ Hrej) in Hw.
  destruct Hw as (Hp & [(-> & -> & _)|(l & Hlast & -> & _)]);
    [left; auto|right].
  exists l. split; [|auto].
  destruct Hp as [rest ->]. apply elem_of_app. left.
  apply last_Some in Hlast as [front ->].
  apply elem_of_app. right. now left.
Qed.

(** X21.  Whenever the promise of a run is fulfilled, the deadline timer
    is no longer armed. *)
Theorem checkLinks_fulfilled_timer (links : list LinkIntermediate)
    (events : list Event) (results : list SyntheticLinkResult) :
  settled (run (checkLinks links) events) = Some (Fulfilled results) →
  timeLimitTimeout (run (checkLinks links) events) = false.
Proof.
  intros Hful.
  destruct (run_worker_inv links events) as (_ & _ & Htimer).
  exact (Htimer _ Hful).
Qed.

(** The loop from its head, when every check ends before the timer. *)
Lemma run_loop_head_completion (rest : list LinkIntermediate)
    (results : list SyntheticLinkResult) (s : State) :
  length results = length rest →
  settled s = None → timeLimitReached s = false →
  run (loop_head rest s)
    (mjoin ((λ result, [LinkChecked result; PageReset]) <$> results))
  = {| timeLimitReached := false;
       followed_links := followed_links s ++ results;
       timeLimitTimeout := false;
       settled := Some (Fulfilled (followed_links s ++ results));
       worker := WorkerReturned true;
       started := started s ++ rest |}.
Proof.
  revert results s. induction rest as [|l rest IH];
    intros results s Hlen Hopen Hflag.
  - destruct results; [|discriminate]. cbn.
    unfold worker_returns, race_won, set_worker. cbn.
    rewrite Hopen. cbn. now rewrite !app_nil_r.
  - destruct results as [|result results]; [discriminate|].
    injection Hlen as Hlen.
    cbn [loop_head]. rewrite Hflag.
    set (s1 := {| timeLimitReached := false;
                  followed_links := followed_links s;
                  timeLimitTimeout := timeLimitTimeout s;
                  settled := settled s;
                  worker := CheckingLink l rest;
                  started := started s ++ [l] |}).
    change (run s1 (mjoin ((λ result, [LinkChecked result; PageReset])
                             <$> result :: results)))
      with (run (loop_head rest (push_result result rest s1))
              (mjoin ((λ result, [LinkChecked result; PageReset])
                        <$> results))).
    rewrite (IH results (push_result result rest s1) Hlen Hopen eq_refl).
    cbn. now rewrite <- !app_assoc.
Qed.

(** X22.  When the page opens and every check ends before the timer goes
    off, the promise is fulfilled with one result per link, in link order;
    every link was checked, the flag stays down and the timer is cleared. *)
Theorem checkLinks_completion (links : list LinkIntermediate)
    (results : list SyntheticLinkResult) :
  length results = length links →
  run (checkLinks links) (completion_events results)
  = {| timeLimitReached := false;
       followed_links := results;
       timeLimitTimeout := false;
       settled := Some (Fulfilled results);
       worker := WorkerReturned true;
       started := links |}.
Proof.
  intros Hlen. unfold completion_events.
  cbn [run foldl step checkLinks worker].
  exact (run_loop_head_completion links results (checkLinks links) Hlen
           eq_refl eq_refl).
Qed.

Lemma step_late_result_inv (results : list SyntheticLinkResult) (s : State)
    (e : Event) :
  late_result_inv results s → late_result_inv results (step s e).
Proof.
  intros (Hexp & Hres).
  destruct (step_expired s e Hexp) as (Hexp' & _).
  split; [exact Hexp'|]. clear Hexp'.
  destruct s as [reached followed timer st wk log].
  destruct Hexp as [Hflag [o Ho]]. cbn in Hflag, Ho, Hres. subst reached st.
  batch_unfold.
  destruct e, wk; cbn; try exact Hres;
    repeat match goal with
           | |- context [match ?x with _ => _ end] => destruct x
           end; cbn;
    try exact Hres;
    try (destruct Hres as [->|[Hres Hno]];
         [auto|right; split; [exact Hres|intros ? ? [=]]]; fail).
  destruct Hres as [->|[_ Hno]].
  - right. split; [eauto|intros ? ? [=]].
  - exfalso. exact (Hno _ _ eq_refl).
Qed.

(** X23.  The array the promise was fulfilled with is the one the worker
    writes to: after the deadline it still holds the results it held when
    the timer went off, or those and one more, the result of the check that
    was in flight. *)
Theorem checkLinks_late_result (links : list LinkIntermediate)
    (before after : list Event) :
  settled (run (checkLinks links) before) = None →
  followed_links (run (step (run (checkLinks links) before) TimerFired) after)
  = followed_links (run (checkLinks links) before)
  ∨ ∃ result,
      followed_links
        (run (step (run (checkLinks links) before) TimerFired) after)
      = followed_links (run (checkLinks links) before) ++ [result].
Proof.
  intros Hopen.
  destruct (run_open_inv (checkLinks links) before
              (checkLinks_open_inv links) Hopen) as (Htimer & Hflag).
  set (s := run (checkLinks links) before) in *.
  assert (Hlate : late_result_inv (followed_links s) (step s TimerFired)).
  { unfold step, timer_fires. rewrite Htimer. cbn. rewrite Hopen.
    split; [split; cbn; eauto|left; reflexivity]. }
  generalize dependent (step s TimerFired). intros s' Hlate.
  revert s' Hlate. induction after as [|e after IH]; intros s' Hlate.
  - destruct Hlate as (_ & [H|[H _]]); auto.
  - apply (IH (step s' e)), step_late_result_inv, Hlate.
Qed.

Lemma checkLinks_rejected_witness :
  (link_check_failed_message (link "b") = page_open_failed_message
   ∧ started (run (checkLinks [link "a"; link "b"])
                [ PageOpened;
                  LinkChecked (link_result (Some true) (Some 200) None);
                  PageReset; LinkCheckThrew ])
     = [])
  ∨ ∃ l, l ∈ [link "a"; link "b"]
         ∧ last (started (run (checkLinks [link "a"; link "b"])
                            [ PageOpened;
                              LinkChecked
                                (link_result (Some true) (Some 200) None);
                              PageReset; LinkCheckThrew ]))
           = Some l
         ∧ link_check_failed_message (link "b")
           = link_check_failed_message l.
Proof.
  apply (checkLinks_rejected [link "a"; link "b"]
           [ PageOpened;
             LinkChecked (link_result (Some true) (Some 200) None);
             PageReset; LinkCheckThrew ]
           (link_check_failed_message (link "b"))).
  reflexivity.
Defined.

Lemma checkLinks_fulfilled_timer_witness :
  timeLimitTimeout
    (run (checkLinks [link "a"])
       [ PageOpened;
         LinkChecked (link_result (Some true) (Some 200) None);
         PageReset ])
  = false.
Proof.
  apply (checkLinks_fulfilled_timer [link "a"]
           [ PageOpened;
             LinkChecked (link_result (Some true) (Some 200) None);
             PageReset ]
           [link_result (Some true) (Some 200) None]).
  reflexivity.
Defined.

Lemma checkLinks_completion_witness :
  run (checkLinks [link "a"; link "b"])
    (completion_events
       [ link_result (Some true) (Some 200) None;
         link_result (Some false) (Some 404) None ])
  = {| timeLimitReached := false;
       followed_links :=
         [ link_result (Some true) (Some 200) None;
           link_result (Some false) (Some 404) None ];
       timeLimitTimeout := false;
       settled :=
         Some (Fulfilled
                 [ link_result (Some true) (Some 200) None;
                   link_result (Some false) (Some 404) None ]);
       worker := WorkerReturned true;
       started := [link "a"; link "b"] |}.
Proof.
  apply (checkLinks_completion [link "a"; link "b"]
           [ link_result (Some true) (Some 200) None;
             link_result (Some false) (Some 404) None ]).
  reflexivity.
Defined.

Lemma checkLinks_late_result_witness :
  followed_links
    (run (step (run (checkLinks [link "a"; link "b"]) [PageOpened])
            TimerFired)
       [LinkChecked (link_result (Some true) (Some 200) None); PageReset])
  = followed_links (run (checkLinks [link "a"; link "b"]) [PageOpened])
  ∨ ∃ result,
      followed_links
        (run (step (run (checkLinks [link "a"; link "b"]) [PageOpened])
                TimerFired)
           [LinkChecked (link_result (Some true) (Some 200) None);
            PageReset])
      = followed_links (run (checkLinks [link "a"; link "b"]) [PageOpened])
        ++ [result].
Proof.
  apply (checkLinks_late_result [link "a"; link "b"] [PageOpened]
           [LinkChecked (link_result (Some true) (Some 200) None);
            PageReset]).
  reflexivity.
Defined.

End BatchRuns.

(** ** Link discovery: what [retrieveLinksFromPage] returns *)

Section LinkScraperProperties.

Context (URL_href : string → string → option string)
        (String_trim : string → string)
        (toLocaleLowerCase : string → string).

(** One attribute value gives at most one link, made from that value. *)
Lemma link_of_value_Some (origin_uri anchor_text html_element value : string)
    (links : list LinkIntermediate) :
  link_of_value URL_href origin_uri anchor_text html_element value
  = Some links →
  (length links ≤ 1)%nat
  ∧ ∀ l, l ∈ links →
      value ≠ ""
      ∧ li_anchor_text l = anchor_text
      ∧ li_html_element l = html_element
      ∧ (if startsWith "file:" value then li_target_uri l = value
         else URL_href value origin_uri = Some (li_target_uri l))
      ∧ (startsWith "http" (li_target_uri l)
         || startsWith "file:" (li_target_uri l)) = true.
Proof.
  unfold link_of_value.
  destruct (URL_href value origin_uri) as [qualified|] eqn:Eq;
    cbn; [|discriminate].
  destruct (String.eqb value "") eqn:Ev; cbn.
  { intros [= <-]. split; [cbn; lia|]. intros l Hl. inversion Hl. }
  apply String.eqb_neq in Ev.
  destruct (startsWith "http" qualified || startsWith "file:" qualified)
    eqn:Escheme; cbn.
  2: { intros [= <-]. split; [cbn; lia|]. intros l Hl. inversion Hl. }
  destruct (startsWith "file:" value) eqn:Efile; cbn.
  - intros [= <-]. split; [cbn; lia|].
    intros l ->%list_elem_of_singleton.
    cbn [li_target_uri li_anchor_text li_html_element].
    rewrite Efile. repeat split; auto using orb_true_r.
  - intros [= <-]. split; [cbn; lia|].
    intros l ->%list_elem_of_singleton.
    cbn [li_target_uri li_anchor_text li_html_element]. auto.
Qed.

Lemma link_of_value_is_Some
    (origin_uri anchor_text html_element value : string) :
  is_Some (link_of_value URL_href origin_uri anchor_text html_element value)
  ↔ is_Some (URL_href value origin_uri).
Proof.
  unfold link_of_value.
  destruct (URL_href value origin_uri) as [qualified|] eqn:Eq; cbn.
  - split; [eauto|intros _].
    destruct (_ && _); [|eauto].
    destruct (startsWith "file:" value); cbn; eauto.
  - split; intros [? ?]; discriminate.
Qed.

(** X24.  Every link returned comes from an element the selector matched
    and one of the attributes asked for, whose value on that element is
    not empty; it carries the element's lower-cased tag name and trimmed
    text; its target is the value itself when that starts with "file:" and
    the value resolved against the page's address otherwise; and the target
    starts with "http" or with "file:". *)
Theorem retrieveLinksFromPage_sound (origin_uri : string)
    (link_elements : list HTMLElement) (get_attributes : list string)
    (links : list LinkIntermediate) (l : LinkIntermediate) :
  retrieveLinksFromPage URL_href String_trim toLocaleLowerCase origin_uri
    link_elements get_attributes = Some links →
  l ∈ links →
  ∃ (link_element : HTMLElement) (attr value : string),
    link_element ∈ link_elements
    ∧ attr ∈ get_attributes
    ∧ attributes link_element !! attr = Some value
    ∧ value ≠ ""
    ∧ li_html_element l = toLocaleLowerCase (tagName link_element)
    ∧ li_anchor_text l
      = default "" (String_trim <$> textContent link_element)
    ∧ (if startsWith "file:" value then li_target_uri l = value
       else URL_href value origin_uri = Some (li_target_uri l))
    ∧ (startsWith "http" (li_target_uri l)
       || startsWith "file:" (li_target_uri l)) = true.
Proof.
  unfold retrieveLinksFromPage. intros Hrun Hl.
  apply fmap_Some in Hrun as (per_element & Hrun & ->).
  apply list_elem_of_join in Hl as (from_element & Hl & Hfrom).
  apply mapM_Some in Hrun.
  apply list_elem_of_lookup in Hfrom as [i Hi].
  destruct (Forall2_lookup_r _ _ _ _ _ Hrun Hi)
    as (link_element & Hel & Helem).
  unfold links_of_element in Helem.
  apply fmap_Some in Helem as (per_attribute & Helem & ->).
  apply list_elem_of_join in Hl as (from_value & Hl & Hfromv).
  apply mapM_Some in Helem.
  apply list_elem_of_lookup in Hfromv as [j Hj].
  destruct (Forall2_lookup_r _ _ _ _ _ Helem Hj) as (attr & Hattr & Hvalue).
  destruct (link_of_value_Some _ _ _ _ _ Hvalue) as (_ & Hlink).
  destruct (Hlink l Hl) as (Hne & Hanchor & Htag & Htarget & Hscheme).
  destruct (attributes link_element !! attr) as [value|] eqn:Ea;
    cbn in Hne; [|done].
  exists link_element, attr, value.
  repeat split; auto.
  - apply list_elem_of_lookup. eauto.
  - apply list_elem_of_lookup. eauto.
Qed.

(** X25.  The call returns at most one link per element and attribute. *)
Theorem retrieveLinksFromPage_length (origin_uri : string)
    (link_elements : list HTMLElement) (get_attributes : list string)
    (links : list LinkIntermediate) :
  retrieveLinksFromPage URL_href String_trim toLocaleLowerCase origin_uri
    link_elements get_attributes = Some links →
  (length links ≤ length link_elements * length get_attributes)%nat.
Proof.
  unfold retrieveLinksFromPage. intros Hrun.
  apply fmap_Some in Hrun as (per_element & Hrun & ->).
  apply mapM_Some in Hrun.
  induction Hrun as [|link_element from_element link_elements per_element
                      Helem _ IH]; [cbn; lia|].
  change (mjoin (from_element :: per_element))
    with (from_element ++ mjoin per_element).
  rewrite length_app. cbn [length].
  assert (length from_element ≤ length get_attributes)%nat; [|lia].
  clear IH. unfold links_of_element in Helem.
  apply fmap_Some in Helem as (per_attribute & Helem & ->).
  apply mapM_Some in Helem.
  induction Helem as [|attr from_value attrs per_attribute Hvalue _ IH];
    [cbn; lia|].
  change (mjoin (from_value :: per_attribute))
    with (from_value ++ mjoin per_attribute).
  rewrite length_app. cbn [length].
  destruct (link_of_value_Some _ _ _ _ _ Hvalue) as (Hone & _). lia.
Qed.

(** X26.  The call fails exactly when some attribute asked for has, on
    some matched element, a value that cannot be resolved against the
    page's address; an attribute the element lacks counts with the empty
    value. *)
Theorem retrieveLinksFromPage_is_Some (origin_uri : string)
    (link_elements : list HTMLElement) (get_attributes : list string) :
  is_Some (retrieveLinksFromPage URL_href String_trim toLocaleLowerCase
             origin_uri link_elements get_attributes)
  ↔ ∀ link_element attr,
      link_element ∈ link_elements → attr ∈ get_attributes →
      is_Some (URL_href (default "" (attributes link_element !! attr))
                 origin_uri).
Proof.
  unfold retrieveLinksFromPage. rewrite fmap_is_Some, mapM_is_Some.
  rewrite Forall_forall. apply forall_proper. intros link_element.
  unfold compose, links_of_element.
  rewrite fmap_is_Some, mapM_is_Some, Forall_forall.
  split.
  - intros H attr Hel Hattr.
    exact (proj1 (link_of_value_is_Some origin_uri _ _ _) (H Hel attr Hattr)).
  - intros H Hel attr Hattr.
    exact (proj2 (link_of_value_is_Some origin_uri _ _ _) (H attr Hel Hattr)).
Qed.

End LinkScraperProperties.

(** The anchor is found through its [href]; it has no [src]. *)
Example retrieveLinksFromPage_about :
  retrieveLinksFromPage simple_href id id "https://example.com"
    [about_anchor] ["href"; "src"]
  = Some [about_link].
Proof. vm_compute. reflexivity. Qed.

Lemma retrieveLinksFromPage_sound_witness :
  ∃ (link_element : HTMLElement) (attr value : string),
    link_element ∈ [about_anchor]
    ∧ attr ∈ ["href"; "src"]
    ∧ attributes link_element !! attr = Some value
    ∧ value ≠ ""
    ∧ li_html_element about_link = id (tagName link_element)
    ∧ li_anchor_text about_link
      = default "" (id <$> textContent link_element)
    ∧ (if startsWith "file:" value then li_target_uri about_link = value
       else simple_href value "https://example.com"
            = Some (li_target_uri about_link))
    ∧ (startsWith "http" (li_target_uri about_link)
       || startsWith "file:" (li_target_uri about_link)) = true.
Proof.
  apply (retrieveLinksFromPage_sound simple_href id id "https://example.com"
           [about_anchor] ["href"; "src"] [about_link] about_link).
  - vm_compute. reflexivity.
  - constructor.
Defined.

Lemma retrieveLinksFromPage_length_witness :
  (length [about_link] ≤ length [about_anchor] * length ["href"; "src"])%nat.
Proof.
  apply (retrieveLinksFromPage_length simple_href id id "https://example.com"
           [about_anchor] ["href"; "src"] [about_link]).
  vm_compute. reflexivity.
Defined.

(** ** Report assembly: the storage path *)

Lemma append_nil_l (s : string) : "" +:+ s = s.
Proof. reflexivity. Qed.

Lemma append_cons (c : Ascii.ascii) (a s : string) :
  String c a +:+ s = String c (a +:+ s).
Proof. reflexivity. Qed.

Lemma index_0_cons (s1 : string) (c : Ascii.ascii) (s2 : string) :
  String.index 0 s1 (String c s2)
  = if String.prefix s1 (String c s2) then Some 0%nat
    else match String.index 0 s1 s2 with
         | Some n => Some (S n)
         | None => None
         end.
Proof. reflexivity. Qed.

(** Whether a text starts with a given character depends on its first
    character alone. *)
Lemma prefix_one (a c : Ascii.ascii) (s s' : string) :
  String.prefix (String a "") (String c s)
  = String.prefix (String a "") (String c s').
Proof.
  cbn [String.prefix]. destruct (Ascii.ascii_dec a c); [|reflexivity].
  now destruct s, s'.
Qed.

Lemma index_slash_append (bucket_part rest : string) :
  String.index 0 "/" bucket_part = None →
  String.index 0 "/" (bucket_part +:+ "/" +:+ rest)
  = Some (String.length bucket_part).
Proof.
  induction bucket_part as [|c b IH]; intros Hnone.
  { rewrite append_nil_l, append_cons, append_nil_l. cbn.
    now destruct rest. }
  rewrite append_cons. rewrite index_0_cons in Hnone |- *.
  rewrite (prefix_one _ c (b +:+ "/" +:+ rest) b).
  destruct (String.prefix "/" (String c b)); [discriminate|].
  destruct (String.index 0 "/" b) eqn:Eb; [discriminate|].
  now rewrite (IH eq_refl).
Qed.

Lemma substring_all (s : string) : String.substring 0 (String.length s) s = s.
Proof. induction s as [|c s IH]; cbn; [reflexivity|now rewrite IH]. Qed.

Lemma substring_after (bucket_part rest : string) :
  String.substring (S (String.length bucket_part))
    (String.length (bucket_part +:+ "/" +:+ rest)
     - S (String.length bucket_part))
    (bucket_part +:+ "/" +:+ rest)
  = rest.
Proof.
  induction bucket_part as [|c b IH].
  - rewrite append_nil_l, append_cons, append_nil_l. cbn.
    rewrite Nat.sub_0_r. apply substring_all.
  - rewrite append_cons. exact IH.
Qed.

(** X27.  When the storage location is a bucket part without solidus, a
    solidus and a folder, the path is [path.join] of the folder, the check
    id and the execution id, the folder being given a final solidus when it
    is not empty and lacks one; the bucket part is left out. *)
Theorem getStoragePathToExecution_folder (path_join : list string → string)
    (storageParams : StorageParameters) (options : BrokenLinkCheckerOptions)
    (bucket_part folder c e : string) :
  storage_location (screenshot_options options)
  = bucket_part +:+ "/" +:+ folder →
  String.index 0 "/" bucket_part = None →
  checkId storageParams = Some c →
  executionId storageParams = Some e →
  getStoragePathToExecution path_join storageParams options
  = path_join
      [ if String.eqb folder "" || endsWith "/" folder then folder
        else folder +:+ "/";
        c; e ].
Proof.
  intros Hloc Hbucket Hc He. unfold getStoragePathToExecution.
  rewrite Hloc, Hc, He, (index_slash_append _ _ Hbucket), substring_after.
  destruct (String.eqb folder ""), (endsWith "/" folder); reflexivity.
Qed.

Lemma getStoragePathToExecution_folder_witness :
  getStoragePathToExecution (String.concat "/")
    {| bucket := Some "bucket"; checkId := Some "uptime123";
       executionId := Some "exec456"; screenshotNumber := 1 |}
    {| origin_uri := "https://example.com"; link_limit := 50;
       link_order := FIRST_N; link_timeout_millis := 30000;
       max_retries := 0; per_link_options := ∅;
       total_synthetic_timeout_millis := 60000;
       screenshot_options :=
         {| storage_location := "bucket/folder1/folder2";
            capture_condition := FAILING |} |}
  = String.concat "/"
      [ if String.eqb "folder1/folder2" ""
           || endsWith "/" "folder1/folder2"
        then "folder1/folder2" else "folder1/folder2" +:+ "/";
        "uptime123"; "exec456" ].
Proof.
  apply (getStoragePathToExecution_folder (String.concat "/") _ _
           "bucket" "folder1/folder2" "uptime123" "exec456");
    reflexivity.
Defined.
